(** * Data-access layer of the photo-sharing client (services/firebase)

    A shallow embedding of the twelve asynchronous functions that map the
    domain operations (user lookup, suggestions, follow toggle, feed
    assembly, comment append, ...) onto calls of the remote document
    service, together with the properties of the written specification.

    Documents are schemaless JavaScript objects, so a document is a finite
    map from field names to values; a collection is a finite map from
    service-assigned document identifiers to documents.  An asynchronous
    function is a state transformer on the service that either resolves
    with a value or rejects with an error. *)

From stdpp Require Import gmap strings list fin_maps stringmap sorting.

Open Scope Z_scope.

(** ** Values stored in documents *)

(** Timestamps and counters are integral JavaScript numbers, hence [Z].
    Nested objects (comment records, the joined owner projection) are kept
    as association lists in the order of the object literal. *)
#[warnings="-register-all"]
Inductive value : Type :=
  | VUndefined
  | VNull
  | VBool (b : bool)
  | VNum (n : Z)
  | VStr (s : string)
  | VArr (l : list value)
  | VObj (o : list (string * value)).

Lemma value_eq_dec : ∀ a b : value, {a = b} + {a ≠ b}.
Proof.
  fix IH 1.
  assert (∀ p q : string * value, {p = q} + {p ≠ q}) as IHp.
  { intros [k v] [k' v']. destruct (String.string_dec k k') as [->|Hk].
    - destruct (IH v v') as [->|Hv]; [left; reflexivity|right; congruence].
    - right; congruence. }
  intros a b; destruct a, b; try (right; discriminate); try (left; reflexivity).
  - destruct (Bool.bool_dec b b0) as [->|]; [left; reflexivity|right; congruence].
  - destruct (Z.eq_dec n n0) as [->|]; [left; reflexivity|right; congruence].
  - destruct (String.string_dec s s0) as [->|]; [left; reflexivity|right; congruence].
  - destruct (List.list_eq_dec IH l l0) as [->|]; [left; reflexivity|right; congruence].
  - destruct (List.list_eq_dec IHp o o0) as [->|]; [left; reflexivity|right; congruence].
Defined.

#[global] Instance value_eq_decision : EqDecision value := value_eq_dec.

(** A document's fields, and a document snapshot as a query returns it:
    [doc.id] paired with [doc.data()]. *)
Abbreviation fields := (gmap string value).
Abbreviation collection := (gmap string (gmap string value)).
Abbreviation snapshot := (string * gmap string value)%type.

(** Reading a property of a JavaScript object: an absent property reads as
    [undefined]. *)
Definition prop (o : fields) (k : string) : value :=
  default VUndefined (o !! k).

(** ** The remote document service *)

Inductive collection_name := Users | Photos.

(** [faults] is the schedule of service failures: every request consumes
    one entry, and the request fails when the entry is [true].  An
    exhausted schedule means that no further request fails. *)
Record service := Service {
  users : collection;
  photos : collection;
  faults : list bool
}.

Definition docs_of (c : collection_name) (db : service) : collection :=
  match c with Users => users db | Photos => photos db end.

Definition with_docs (c : collection_name) (m : collection) (db : service)
  : service :=
  match c with
  | Users => Service m (photos db) (faults db)
  | Photos => Service (users db) m (faults db)
  end.

Inductive error := ServiceFailure | DocumentNotFound | TypeError.

Inductive outcome (A : Type) : Type :=
  | Resolved (a : A)
  | Rejected (e : error).
Arguments Resolved {A} a.
Arguments Rejected {A} e.

(** A promise-returning function: it runs against the service and either
    resolves or rejects.  [await] is the bind of this monad. *)
Definition async (A : Type) : Type := service → outcome A * service.

#[global] Instance async_ret : MRet async := λ A a db, (Resolved a, db).
#[global] Instance async_bind : MBind async := λ A B k m db,
  match m db with
  | (Resolved a, db') => k a db'
  | (Rejected e, db') => (Rejected e, db')
  end.

Definition throw {A} (e : error) : async A := λ db, (Rejected e, db).

(** A promise that is created but neither awaited nor returned: its effect
    on the service takes place, its outcome is lost. *)
Definition unawaited {A} (m : async A) : async unit :=
  λ db, (Resolved (), (m db).2).

(** [xs.map(f)] for its effects only, left to right. *)
Fixpoint for_each {A} (f : A → async unit) (xs : list A) : async unit :=
  match xs with
  | [] => mret ()
  | x :: xs' => _ ← f x; for_each f xs'
  end.

(** [await Promise.all(xs.map(f))].  The callbacks only read the service,
    so starting them one after the other yields the same results as
    starting them together; the first rejection rejects the whole. *)
Fixpoint promise_all {A B} (f : A → async B) (xs : list A) : async (list B) :=
  match xs with
  | [] => mret []
  | x :: xs' => y ← f x; ys ← promise_all f xs'; mret (y :: ys)
  end.

(** What the service does with a request that went through. *)
Definition served {A} (f : service → outcome A * service) : async A := f.

(** One round trip to the service. *)
Definition request : async unit := λ db,
  match faults db with
  | [] => (Resolved (), db)
  | false :: fs => (Resolved (), Service (users db) (photos db) fs)
  | true :: fs => (Rejected ServiceFailure, Service (users db) (photos db) fs)
  end.

(** *** Queries *)

Inductive condition :=
  | FieldEq (field : string) (v : value)
  | FieldIn (field : string) (vs : list value).

Definition satisfies (c : condition) (d : snapshot) : Prop :=
  match c with
  | FieldEq f v => d.2 !! f = Some v
  | FieldIn f vs => ∃ v, v ∈ vs ∧ d.2 !! f = Some v
  end.

#[global] Instance satisfies_dec c d : Decision (satisfies c d).
Proof.
  destruct c as [f v|f vs]; simpl.
  - apply _.
  - destruct (d.2 !! f) as [w|] eqn:E.
    + destruct (decide (w ∈ vs)); [left; eauto|right].
      intros (v & ? & [= ->]). done.
    + right; intros (v & ? & ?); done.
Defined.

Record query := Query {
  q_from : collection_name;
  q_where : list condition;
  q_limit : option nat
}.

Definition collection_ (c : collection_name) : query := Query c [] None.
Definition where_ (c : condition) (q : query) : query :=
  Query (q_from q) (q_where q ++ [c]) (q_limit q).
Definition limit (n : nat) (q : query) : query :=
  Query (q_from q) (q_where q) (Some n).

(** The documents a query selects, in the order the service lists the
    collection: all conditions hold, then the limit cuts the list.  The
    traversal order of the map stands for the service's order, on which no
    property below depends.  The client's validation of the arguments is
    not part of the model: it refuses a membership filter with no value or
    with more than ten values, and a limit that is not positive, before
    any request; a statement that a call resolves is about arguments the
    client accepts. *)
Definition select (q : query) (db : service) : list snapshot :=
  let all := map_to_list (docs_of (q_from q) db) in
  let matching := filter (λ d, Forall (λ c, satisfies c d) (q_where q)) all in
  match q_limit q with
  | Some n => take n matching
  | None => matching
  end.

Definition get (q : query) : async (list snapshot) :=
  _ ← request; served (λ db, (Resolved (select q db), db)).

(** *** Writes *)

Inductive transform :=
  | arrayUnion (v : value)
  | arrayRemove (v : value).

(** [arrayUnion] appends the element unless the array already holds it;
    [arrayRemove] deletes every occurrence.  A field that is absent or not
    an array is overwritten by the outcome on the empty array.  Elements
    are compared as values of [value]; for strings, which is what the
    toggles pass, this is the service's comparison, while two objects that
    differ only in the order of their keys are equal for the service and
    distinct here. *)
Definition apply_transform (t : transform) (old : option value) : value :=
  let l := match old with Some (VArr l) => l | _ => [] end in
  match t with
  | arrayUnion v => VArr (if decide (v ∈ l) then l else l ++ [v])
  | arrayRemove v => VArr (filter (λ x, x ≠ v) l)
  end.
Arguments apply_transform : simpl never.

(** [collection(c).doc(id).update({field: t})]: fails on a missing
    document. *)
Definition update (c : collection_name) (id field : string) (t : transform)
  : async unit :=
  _ ← request; served (λ db,
  match docs_of c db !! id with
  | None => (Rejected DocumentNotFound, db)
  | Some d =>
      let d' := <[field := apply_transform t (d !! field)]> d in
      (Resolved (), with_docs c (<[id := d']> (docs_of c db)) db)
  end).

(** [collection(c).add(data)]: the service picks an identifier that is not
    in use; which one is immaterial to the properties below. *)
Definition add (c : collection_name) (data : fields) : async string :=
  _ ← request; served (λ db,
  let id := fresh_string_of_set "" (dom (docs_of c db)) in
  (Resolved id, with_docs c (<[id := data]> (docs_of c db)) db)).

(** ** JavaScript helpers used by the data-access functions *)

(** [{...doc.data(), docId: doc.id}] *)
Definition with_doc_id (doc : snapshot) : fields :=
  <["docId" := VStr doc.1]> doc.2.

Fixpoint is_substring (needle hay : string) : bool :=
  String.prefix needle hay ||
  match hay with
  | EmptyString => false
  | String _ hay' => is_substring needle hay'
  end.

(** [recv.includes(x)] for a string [x]: membership on an array, substring
    search on a string, and a thrown [TypeError] on anything else, which
    has no callable [includes]. *)
Definition includes (recv : value) (x : string) : async bool :=
  match recv with
  | VArr l => mret (bool_decide (VStr x ∈ l))
  | VStr s => mret (is_substring x s)
  | _ => throw TypeError
  end.

(** [x - y] on numbers; [None] is [NaN].  Timestamps are written by
    [Date.now()]; an operand that is not a number is not coerced here and
    gives [NaN]. *)
Definition minus (x y : value) : option Z :=
  match x, y with
  | VNum a, VNum b => Some (a - b)
  | _, _ => None
  end.

(** [l.sort(comparefn)]: a stable sort that places [a] before [b] when
    [comparefn(a, b) <= 0], a [NaN] result counting as [0]. *)
Definition before {A} (comparefn : A → A → option Z) : relation A :=
  λ a b, default 0 (comparefn a b) ≤ 0.

#[global] Instance before_dec {A} (comparefn : A → A → option Z)
  : RelDecision (before comparefn).
Proof. intros a b; unfold before; apply _. Defined.

Fixpoint sort_insert {A} (comparefn : A → A → option Z) (x : A) (l : list A)
  : list A :=
  match l with
  | [] => [x]
  | y :: l' =>
      if decide (before comparefn x y) then x :: y :: l'
      else y :: sort_insert comparefn x l'
  end.

Definition sort {A} (comparefn : A → A → option Z) (l : list A) : list A :=
  foldr (sort_insert comparefn) [] l.

(** ** The data-access functions *)

Definition doesUserExist (username : string) : async nat :=
  docs ← get (where_ (FieldEq "username" (VStr username)) (collection_ Users));
  mret (length (snd <$> docs)).

Definition createFirestoreUser (userObject : fields) : async string :=
  add Users userObject.

(** The identifier is passed on to the query as it is; the feed hands in
    the [userId] field of a photo. *)
Definition getUserDataByUserId (userId : value) : async (option fields) :=
  docs ← get (where_ (FieldEq "userId" userId) (collection_ Users));
  mret (head (with_doc_id <$> docs)).

Definition getSuggestedProfilesByUserId
    (userId : string) (userFollowing : list string) (limitQuery : nat)
  : async (list fields) :=
  docs ← get (limit limitQuery (collection_ Users));
  mret (filter
          (λ profile, prop profile "userId" ≠ VStr userId
                      ∧ prop profile "userId" ∉ VStr <$> userFollowing)
          (with_doc_id <$> docs)).

Definition updateUserFollowingField
    (suggestedUserId userId : string) (userFollowingStatus : bool)
  : async unit :=
  docs ← get (where_ (FieldEq "userId" (VStr userId)) (collection_ Users));
  for_each
    (λ doc : snapshot,
       unawaited
         (update Users doc.1 "following"
            (if userFollowingStatus
             then arrayRemove (VStr suggestedUserId)
             else arrayUnion (VStr suggestedUserId))))
    docs.

Definition updateUserFollowersField
    (suggestedUserDocId userId : string) (userFollowingStatus : bool)
  : async unit :=
  update Users suggestedUserDocId "followers"
    (if userFollowingStatus
     then arrayRemove (VStr userId)
     else arrayUnion (VStr userId)).

(** The callback of the feed's [map]: one photo, joined with its owner. *)
Definition photoWithUserData (userId : string) (photo : fields)
  : async fields :=
  userLikedPhoto ← includes (prop photo "likes") userId;
  userSavedPhoto ← includes (prop photo "saved") userId;
  owner ← getUserDataByUserId (prop photo "userId");
  match owner with
  | None => throw TypeError
  | Some o =>
      let user := VObj [("username", prop o "username");
                        ("photoURL", prop o "photoURL");
                        ("verifiedUser", prop o "verifiedUser");
                        ("docId", prop o "docId")] in
      mret (<["userSavedPhoto" := VBool userSavedPhoto]>
              (<["userLikedPhoto" := VBool userLikedPhoto]>
                 (photo ∪ {["user" := user]})))
  end.

Definition getFollowingUserPhotosByUserId
    (userId : string) (userFollowing : list string) : async (list fields) :=
  docs ← get (where_ (FieldIn "userId" (VStr <$> userFollowing))
                (collection_ Photos));
  let userFollowedPhotos := with_doc_id <$> docs in
  promise_all (photoWithUserData userId) userFollowedPhotos.

Definition getUserPhotosByUserId (userId : string) (limitQuery : nat)
  : async (list fields) :=
  docs ← get (limit limitQuery
                (where_ (FieldEq "userId" (VStr userId)) (collection_ Photos)));
  mret (sort (λ a b, minus (prop b "dateCreated") (prop a "dateCreated"))
          (with_doc_id <$> docs)).

Definition updatePostLikesField
    (postDocId userId : string) (userLikedStatus : bool) : async unit :=
  update Photos postDocId "likes"
    (if userLikedStatus
     then arrayRemove (VStr userId)
     else arrayUnion (VStr userId)).

Definition updatePostSavedField
    (userDocId userId : string) (userSavedStatus : bool) : async unit :=
  update Photos userDocId "saved"
    (if userSavedStatus
     then arrayRemove (VStr userId)
     else arrayUnion (VStr userId)).

Definition updateUserSavedPostsField
    (userDocId postId : string) (userSavedStatus : bool) : async unit :=
  update Users userDocId "savedPosts"
    (if userSavedStatus
     then arrayRemove (VStr postId)
     else arrayUnion (VStr postId)).

Definition addPostComments (postDocId : string) (newPostComment : value)
  : async unit :=
  update Photos postDocId "comments" (arrayUnion newPostComment).

(** ** Sample data *)

(** Three users, of whom [u1] follows [u2]; two photos of [u2] carry the
    same timestamp. *)

Definition user_doc (userId username : string) (following : list string)
  : fields :=
  {[ "userId" := VStr userId; "username" := VStr username;
     "photoURL" := VStr ""; "verifiedUser" := VBool false;
     "following" := VArr (VStr <$> following) ]}.

Definition photo_doc (userId : string) (dateCreated : Z)
    (likes saved : list string) : fields :=
  {[ "userId" := VStr userId; "dateCreated" := VNum dateCreated;
     "likes" := VArr (VStr <$> likes); "saved" := VArr (VStr <$> saved);
     "comments" := VArr [] ]}.

Definition db1 : service :=
  Service {[ "d1" := user_doc "u1" "alice" ["u2"];
             "d2" := user_doc "u2" "bob" [];
             "d3" := user_doc "u3" "carol" [] ]}
          {[ "p1" := photo_doc "u2" 10 ["u1"] [];
             "p2" := photo_doc "u2" 30 [] ["u1"];
             "p3" := photo_doc "u2" 30 [] [];
             "p4" := photo_doc "u3" 20 [] [] ]}
          [].

(** A photo whose owner has no user document. *)
Definition db3 : service :=
  Service {[ "d1" := user_doc "u1" "alice" ["ghost"] ]}
          {[ "p1" := photo_doc "ghost" 10 [] [] ]}
          [].

(** One user; the next request goes through, the one after it fails. *)
Definition db_write_fails : service :=
  Service {[ "d1" := user_doc "u1" "alice" [] ]} ∅ [false; true].

(** ** Notions the properties are stated with *)

(** Whatever the comparison function answers, the insertion leaves no
    adjacent pair in which the second element had to come first: such a
    pair [a, b] has [comparefn a b <= 0] or has been placed because
    [comparefn b a > 0]. *)
Definition in_order {A} (comparefn : A → A → option Z) (a b : A) : Prop :=
  before comparefn a b ∨ ¬ before comparefn b a.

(** A profile the local filter of the suggestions lets through. *)
Definition eligible (userId : string) (userFollowing : list string)
    (profile : fields) : Prop :=
  prop profile "userId" ≠ VStr userId
  ∧ Forall (λ f, prop profile "userId" ≠ VStr f) userFollowing.

#[global] Instance eligible_dec userId userFollowing profile
  : Decision (eligible userId userFollowing profile).
Proof. unfold eligible. apply _. Defined.

(** The creation time of a photo record, when it is a number. *)
Definition timestamp (photo : fields) : option Z :=
  match prop photo "dateCreated" with VNum t => Some t | _ => None end.

(** The order the specification claims, and the order the sort gives. *)
Definition strictly_newer (a b : fields) : Prop :=
  ∃ ta tb, timestamp a = Some ta ∧ timestamp b = Some tb ∧ tb < ta.

Definition newer_or_same (a b : fields) : Prop :=
  ∃ ta tb, timestamp a = Some ta ∧ timestamp b = Some tb ∧ tb ≤ ta.

#[global] Instance strictly_newer_dec a b : Decision (strictly_newer a b).
Proof.
  unfold strictly_newer.
  destruct (timestamp a) as [ta|]; [|right; by intros (?&?&?&?)].
  destruct (timestamp b) as [tb|]; [|right; by intros (?&?&?&?&?)].
  destruct (decide (tb < ta)); [left; eauto|right].
  intros (?&?&[= <-]&[= <-]&?). done.
Defined.

(** The comparison function of [getUserPhotosByUserId]. *)
Definition by_newest (a b : fields) : option Z :=
  minus (prop b "dateCreated") (prop a "dateCreated").

(** The [user] object of a feed record, from the owner as the lookup
    returned it. *)
Definition owner_projection (owner : fields) : value :=
  VObj [("username", prop owner "username");
        ("photoURL", prop owner "photoURL");
        ("verifiedUser", prop owner "verifiedUser");
        ("docId", prop owner "docId")].

(** The transform [updateUserFollowingField] sends, and the write it
    issues for one document of the query result. *)
Definition following_transform (suggestedUserId : string) (status : bool)
  : transform :=
  if status then arrayRemove (VStr suggestedUserId)
  else arrayUnion (VStr suggestedUserId).

Definition set_following (t : transform) (d : fields) : fields :=
  <["following" := apply_transform t (d !! "following")]> d.

(** What a completed toggle does to a user document. *)
Definition toggled (t : transform) (userId : string) (d : fields) : fields :=
  if decide (d !! "userId" = Some (VStr userId)) then set_following t d else d.

Definition write_following (t : transform) (doc : snapshot) : async unit :=
  unawaited (update Users doc.1 "following" t).

(** The precondition of the round trip on one document, in a form that
    can be evaluated. *)
Definition not_yet_following (s : string) (d : fields) : Prop :=
  match d !! "following" with
  | Some (VArr l) => VStr s ∉ l
  | _ => False
  end.

#[global] Instance not_yet_following_dec s d : Decision (not_yet_following s d).
Proof. unfold not_yet_following. destruct (d !! "following") as [[]|]; apply _. Defined.

(** ** Notions for the remaining operations *)

(** The stored documents are the same; the fault schedule may differ. *)
Definition same_data (db db' : service) : Prop :=
  users db' = users db ∧ photos db' = photos db.

(** An operation that leaves the stored documents alone, whatever its
    outcome. *)
Definition read_only {A} (m : async A) : Prop :=
  ∀ db, same_data db (m db).2.

(** The service fails the very next request. *)
Definition db_down : service :=
  Service (users db1) (photos db1) [true].

(** The four toggles that address one document by its identifier. *)
Inductive toggle_op := PostLikes | PostSaved | UserSavedPosts | UserFollowers.

Definition run_toggle (op : toggle_op) (docId x : string) (status : bool)
  : async unit :=
  match op with
  | PostLikes => updatePostLikesField docId x status
  | PostSaved => updatePostSavedField docId x status
  | UserSavedPosts => updateUserSavedPostsField docId x status
  | UserFollowers => updateUserFollowersField docId x status
  end.

(** The collection and the array field each of them writes. *)
Definition toggle_target (op : toggle_op) : collection_name * string :=
  match op with
  | PostLikes => (Photos, "likes")
  | PostSaved => (Photos, "saved")
  | UserSavedPosts => (Users, "savedPosts")
  | UserFollowers => (Users, "followers")
  end.

Definition other (c : collection_name) : collection_name :=
  match c with Users => Photos | Photos => Users end.

(** Between [db] and [db'] nothing differs except, possibly, the field
    [field] of the document [id] of collection [c]. *)
Definition touches_only (c : collection_name) (id field : string)
    (db db' : service) : Prop :=
  docs_of (other c) db' = docs_of (other c) db
  ∧ (∀ j, j ≠ id → docs_of c db' !! j = docs_of c db !! j)
  ∧ match docs_of c db !! id with
    | None => docs_of c db' !! id = None
    | Some d =>
        ∃ d', docs_of c db' !! id = Some d'
              ∧ ∀ k, k ≠ field → d' !! k = d !! k
    end.

(** What the feed needs of a fetched photo: its [likes] and [saved] fields
    are arrays and its owner has a user document. *)
Definition is_array (o : option value) : Prop := ∃ l, o = Some (VArr l).

#[global] Instance is_array_dec o : Decision (is_array o).
Proof.
  unfold is_array.
  destruct o as [[]|]; try (right; intros [? [=]]; fail). left. by eexists.
Defined.

Definition has_owner (db : service) (photo : fields) : Prop :=
  ∃ oid owner, users db !! oid = Some owner
               ∧ owner !! "userId" = photo !! "userId".

#[global] Instance has_owner_dec db photo : Decision (has_owner db photo).
Proof.
  destruct (decide (Exists (λ doc : snapshot,
                              doc.2 !! "userId" = photo !! "userId")
                      (map_to_list (users db)))) as [Hyes|Hno].
  - left. apply Exists_exists in Hyes as ([oid owner] & Hin & Ho).
    exists oid, owner. split; [by apply elem_of_map_to_list|done].
  - right. intros (oid & owner & Hin & Ho). apply Hno, Exists_exists.
    exists (oid, owner). split; [by apply elem_of_map_to_list|done].
Defined.

(** The fields of a feed record that do not come from the photo. *)
Definition derived_fields : list string :=
  ["user"; "userLikedPhoto"; "userSavedPhoto"; "docId"].

(** A returned record whose [docId] can be handed to the writes of
    collection [c]: they find the document. *)
Definition writable (c : collection_name) (db : service) (rec : fields)
  : Prop :=
  ∃ id, rec !! "docId" = Some (VStr id)
        ∧ (∀ op x status,
             (toggle_target op).1 = c →
             ∃ db', run_toggle op id x status db = (Resolved (), db'))
        ∧ (c = Photos →
           ∀ comment, ∃ db', addPostComments id comment db = (Resolved (), db')).

(** Closed equations between results of runs are checked by evaluation. *)
Ltac vm_refl :=
  lazymatch goal with
  | |- @eq ?T _ ?b => vm_cast_no_check (@eq_refl T b)
  end.

(** ** Running requests and queries *)

Lemma request_no_faults db : faults db = [] → request db = (Resolved (), db).
Proof. intros H. unfold request. by rewrite H. Qed.

Lemma request_resolved db u db' :
  request db = (Resolved u, db') →
  users db' = users db ∧ photos db' = photos db
  ∧ faults db' = tail (faults db).
Proof.
  unfold request. destruct (faults db) as [|[] fs] eqn:E;
    intros [= <- <-]; simpl; by rewrite ?E.
Qed.

Lemma request_data db : users (request db).2 = users db
  ∧ photos (request db).2 = photos db
  ∧ faults (request db).2 = tail (faults db).
Proof. unfold request. by destruct (faults db) as [|[] fs] eqn:E. Qed.

Lemma select_data q db db' :
  users db' = users db → photos db' = photos db → select q db' = select q db.
Proof.
  intros Hu Hp. unfold select, docs_of. by rewrite Hu, Hp.
Qed.

Lemma get_no_faults q db :
  faults db = [] → get q db = (Resolved (select q db), db).
Proof.
  intros H. unfold get, mbind, async_bind, served.
  by rewrite (request_no_faults _ H).
Qed.

Lemma get_resolved q db r db' :
  get q db = (Resolved r, db') →
  r = select q db ∧ users db' = users db ∧ photos db' = photos db
  ∧ faults db' = tail (faults db).
Proof.
  unfold get, mbind, async_bind, served.
  destruct (request db) as [[[]|e] db1] eqn:E; [|done].
  intros [= <- <-]. apply request_resolved in E as (Hu & Hp & Hf).
  split; [by apply select_data|done].
Qed.

Lemma get_data q db :
  users (get q db).2 = users db ∧ photos (get q db).2 = photos db.
Proof.
  unfold get, mbind, async_bind, served.
  pose proof (request_data db) as (Hu & Hp & _).
  by destruct (request db) as [[[]|e] db1].
Qed.

(** Queries with one equality filter and no limit. *)
Lemma select_where_eq c f v db :
  select (where_ (FieldEq f v) (collection_ c)) db
  = filter (λ d : snapshot, d.2 !! f = Some v) (map_to_list (docs_of c db)).
Proof.
  unfold select; simpl. apply list_filter_iff. intros d.
  rewrite Forall_singleton. done.
Qed.

Lemma select_where_in c f vs db :
  select (where_ (FieldIn f vs) (collection_ c)) db
  = filter (λ d : snapshot, satisfies (FieldIn f vs) d)
      (map_to_list (docs_of c db)).
Proof.
  unfold select; simpl. apply list_filter_iff. intros d.
  rewrite Forall_singleton. done.
Qed.

Lemma select_limit_where_eq c f v n db :
  select (limit n (where_ (FieldEq f v) (collection_ c))) db
  = take n (filter (λ d : snapshot, d.2 !! f = Some v)
              (map_to_list (docs_of c db))).
Proof.
  unfold select; simpl. f_equal. apply list_filter_iff. intros d.
  rewrite Forall_singleton. done.
Qed.

Lemma select_limit c n db :
  select (limit n (collection_ c)) db = take n (map_to_list (docs_of c db)).
Proof.
  unfold select; simpl. f_equal. induction (map_to_list (docs_of c db)) as [|d l IH];
    [done|]. rewrite filter_cons_True by constructor. by f_equal.
Qed.

Lemma elem_of_snapshots (m : collection) (doc : snapshot) :
  doc ∈ map_to_list m ↔ m !! doc.1 = Some doc.2.
Proof. destruct doc as [id d]. apply elem_of_map_to_list. Qed.

Lemma filter_none {A} (P : A → Prop) `{!∀ x, Decision (P x)} (l : list A) :
  (∀ x, x ∈ l → ¬ P x) → filter P l = [].
Proof.
  induction l as [|x l IH]; intros Hl; [done|].
  rewrite filter_cons_False by (apply Hl; left).
  apply IH. intros y Hy. apply Hl. by right.
Qed.

(** ** User lookup and existence check *)

Lemma doesUserExist_run username db :
  faults db = [] →
  doesUserExist username db
  = (Resolved (length (filter (λ d : snapshot,
                                 d.2 !! "username" = Some (VStr username))
                         (map_to_list (users db)))), db).
Proof.
  intros H. unfold doesUserExist, mbind, async_bind.
  rewrite (get_no_faults _ _ H), select_where_eq. simpl.
  by rewrite length_fmap.
Qed.

Lemma createFirestoreUser_run userObject db :
  faults db = [] →
  ∃ id, users db !! id = None
    ∧ createFirestoreUser userObject db
      = (Resolved id, Service (<[id := userObject]> (users db)) (photos db) []).
Proof.
  intros H. exists (fresh_string_of_set "" (dom (users db))). split.
  - apply not_elem_of_dom, fresh_string_of_set_fresh.
  - unfold createFirestoreUser, add, mbind, async_bind, served.
    rewrite (request_no_faults _ H). simpl. by rewrite H.
Qed.

(** C7: [doesUserExist] resolves with the exact number of user documents
    whose [username] field equals the argument: [0] when there is none, and
    one more than before, hence at least [1], once [createFirestoreUser]
    has inserted an object with that username. *)
Theorem doesUserExist_counts_matches (db : service) (U : string) :
  faults db = [] →
  let count (m : collection) :=
    length (filter (λ d : snapshot, d.2 !! "username" = Some (VStr U))
              (map_to_list m)) in
  doesUserExist U db = (Resolved (count (users db)), db)
  ∧ ((∀ id d, users db !! id = Some d → d !! "username" ≠ Some (VStr U)) →
     doesUserExist U db = (Resolved 0%nat, db))
  ∧ (∀ userObject, userObject !! "username" = Some (VStr U) →
     ∃ id db' n,
       createFirestoreUser userObject db = (Resolved id, db')
       ∧ doesUserExist U db' = (Resolved n, db')
       ∧ n = S (count (users db)) ∧ (1 ≤ n)%nat).
Proof.
  intros H count. split; [|split].
  - by apply doesUserExist_run.
  - intros Hnone. rewrite (doesUserExist_run _ _ H). do 2 f_equal.
    rewrite filter_none; [done|].
    intros [id d] Hin%elem_of_map_to_list. simpl. by apply (Hnone id).
  - intros obj Hobj.
    destruct (createFirestoreUser_run obj db H) as (id & Hfresh & Hrun).
    eexists id, _, _. split; [exact Hrun|].
    split; [by apply doesUserExist_run|]. simpl.
    assert (length (filter (λ d : snapshot, d.2 !! "username" = Some (VStr U))
                      (map_to_list (<[id := obj]> (users db))))
            = S (count (users db))) as ->; [|split; [done|lia]].
    rewrite (Permutation_length
               (filter_Permutation _ _ _ (map_to_list_insert _ _ _ Hfresh))).
    by rewrite filter_cons_True.
Qed.

Lemma doesUserExist_counts_matches_witness :
  doesUserExist "dave" db1 = (Resolved 0%nat, db1).
Proof.
  apply (doesUserExist_counts_matches db1 "dave"); [reflexivity|].
  change (map_Forall (λ _ (d : fields), d !! "username" ≠ Some (VStr "dave"))
            (users db1)).
  compute_done.
Defined.

Lemma getUserDataByUserId_run userId db :
  faults db = [] →
  getUserDataByUserId userId db
  = (Resolved (with_doc_id <$>
                 head (filter (λ d : snapshot, d.2 !! "userId" = Some userId)
                         (map_to_list (users db)))), db).
Proof.
  intros H. unfold getUserDataByUserId, mbind, async_bind.
  rewrite (get_no_faults _ _ H), select_where_eq. simpl.
  by destruct (filter _ _).
Qed.

Lemma getUserDataByUserId_resolved userId db r db' :
  getUserDataByUserId userId db = (Resolved r, db') →
  r = with_doc_id <$>
        head (filter (λ d : snapshot, d.2 !! "userId" = Some userId)
                (map_to_list (users db)))
  ∧ users db' = users db ∧ photos db' = photos db.
Proof.
  unfold getUserDataByUserId, mbind, async_bind.
  destruct (get _ db) as [[docs|e] db1] eqn:E; [|done].
  apply get_resolved in E as (-> & Hu & Hp & _).
  intros [= <- <-]. rewrite select_where_eq. simpl.
  split; [by destruct (filter _ _)|done].
Qed.

(** C6: [getUserDataByUserId] resolves with the first user document, in
    the order of the query result, whose [userId] field matches, merged
    with its document identifier under [docId]; when no user document
    matches it resolves with [undefined] and does not reject. *)
Theorem getUserDataByUserId_first_match_or_undefined
    (db : service) (userId : string) :
  faults db = [] →
  let matching :=
    filter (λ d : snapshot, d.2 !! "userId" = Some (VStr userId))
      (map_to_list (users db)) in
  getUserDataByUserId (VStr userId) db
  = (Resolved ((λ doc : snapshot, <["docId" := VStr doc.1]> doc.2)
                 <$> head matching), db)
  ∧ (∀ r, (getUserDataByUserId (VStr userId) db).1 = Resolved (Some r) →
     ∃ id d, users db !! id = Some d ∧ d !! "userId" = Some (VStr userId)
             ∧ r = <["docId" := VStr id]> d)
  ∧ ((∀ id d, users db !! id = Some d → d !! "userId" ≠ Some (VStr userId)) →
     getUserDataByUserId (VStr userId) db = (Resolved None, db)).
Proof.
  intros H matching. rewrite (getUserDataByUserId_run _ _ H).
  fold matching. split; [done|split].
  - simpl. intros r [= Hr].
    destruct matching as [|[id d] l] eqn:E; [done|].
    injection Hr as <-. exists id, d.
    assert ((id, d) ∈ matching) as Hin by (rewrite E; left).
    apply list_elem_of_filter in Hin as [Hid Hin%elem_of_map_to_list].
    done.
  - intros Hnone. unfold matching. rewrite filter_none; [done|].
    intros [id d] Hin%elem_of_map_to_list. simpl. by apply (Hnone id).
Qed.

Lemma getUserDataByUserId_first_match_or_undefined_witness :
  getUserDataByUserId (VStr "nobody") db1 = (Resolved None, db1).
Proof.
  apply (getUserDataByUserId_first_match_or_undefined db1 "nobody");
    [reflexivity|].
  change (map_Forall (λ _ (d : fields), d !! "userId" ≠ Some (VStr "nobody"))
            (users db1)).
  compute_done.
Defined.

(** ** Suggested profiles *)

Lemma getSuggestedProfilesByUserId_resolved userId userFollowing n db r db' :
  getSuggestedProfilesByUserId userId userFollowing n db = (Resolved r, db') →
  r = filter (λ profile, prop profile "userId" ≠ VStr userId
                         ∧ prop profile "userId" ∉ VStr <$> userFollowing)
        (with_doc_id <$> take n (map_to_list (users db))).
Proof.
  unfold getSuggestedProfilesByUserId, mbind, async_bind.
  destruct (get _ db) as [[docs|e] db1] eqn:E; [|done].
  apply get_resolved in E as (-> & _). intros [= <- <-].
  by rewrite select_limit.
Qed.

(** C3: the list [getSuggestedProfilesByUserId] resolves with is the fetch
    window (the first [limitQuery] user documents) minus the documents the
    local filter excludes: it holds no profile of the requesting user, no
    profile of a followed user, and at most [limitQuery] entries.  The call
    resolves whenever the service does not fail.  Filtering after limiting
    can leave the result shorter than the limit while an eligible user
    document lies outside the window. *)
Theorem getSuggestedProfilesByUserId_excludes_and_bounded :
  (∀ db userId userFollowing limitQuery r db',
     getSuggestedProfilesByUserId userId userFollowing limitQuery db
     = (Resolved r, db') →
     let window := with_doc_id <$> take limitQuery (map_to_list (users db)) in
     Forall (eligible userId userFollowing) r
     ∧ (length r ≤ limitQuery)%nat
     ∧ (length r
        = length window
          - length (filter (λ p, ¬ eligible userId userFollowing p) window))%nat)
  ∧ (∀ db userId userFollowing limitQuery,
       faults db = [] →
       ∃ r, getSuggestedProfilesByUserId userId userFollowing limitQuery db
            = (Resolved r, db))
  ∧ (∃ db userId userFollowing limitQuery r id d,
       getSuggestedProfilesByUserId userId userFollowing limitQuery db
       = (Resolved r, db)
       ∧ (length r < limitQuery)%nat
       ∧ users db !! id = Some d
       ∧ eligible userId userFollowing (with_doc_id (id, d))
       ∧ with_doc_id (id, d) ∉ r).
Proof.
  split; [|split].
  - intros db u F n r db' Hrun window.
    apply getSuggestedProfilesByUserId_resolved in Hrun. fold window in Hrun.
    assert (∀ p, (prop p "userId" ≠ VStr u ∧ prop p "userId" ∉ VStr <$> F)
                 ↔ eligible u F p) as Hiff.
    { intros p. unfold eligible. rewrite list_elem_of_fmap, Forall_forall.
      split; intros [H1 H2]; (split; [done|]).
      - intros f Hf Heq. apply H2. eauto.
      - intros (f & Heq & Hf). by apply (H2 f). }
    rewrite (list_filter_iff _ _ _ Hiff) in Hrun. subst r.
    split; [|split].
    + apply Forall_forall. intros p Hp.
      by apply list_elem_of_filter in Hp as [? _].
    + etrans; [apply length_filter|]. unfold window.
      rewrite length_fmap, length_take. lia.
    + pose proof (Permutation_length (filter_app_complement
                    (eligible u F) window)) as Hlen.
      rewrite length_app in Hlen. lia.
  - intros db u F n H. eexists.
    unfold getSuggestedProfilesByUserId, mbind, async_bind.
    by rewrite (get_no_faults _ _ H).
  - exists db1, "u1"%string, [], 2%nat,
      [with_doc_id ("d3"%string, user_doc "u3" "carol" [])], "d2"%string,
      (user_doc "u2" "bob" []).
    split; [vm_refl|]. split; [simpl; lia|]. split; [vm_refl|].
    split; compute_done.
Qed.

Lemma getSuggestedProfilesByUserId_excludes_and_bounded_witness :
  Forall (eligible "u1" ["u2"]) [with_doc_id ("d3", user_doc "u3" "carol" [])].
Proof.
  refine (proj1 (proj1 getSuggestedProfilesByUserId_excludes_and_bounded
                   db1 "u1" ["u2"] 2%nat _ db1 _)).
  vm_refl.
Defined.

(** ** Sorting *)

Section sort.
Context {A : Type} (comparefn : A → A → option Z).

Lemma sort_insert_Permutation x l : sort_insert comparefn x l ≡ₚ x :: l.
Proof.
  induction l as [|y l IH]; simpl; [done|].
  case_decide; [done|]. rewrite IH. apply Permutation_swap.
Qed.

Lemma sort_Permutation l : sort comparefn l ≡ₚ l.
Proof.
  induction l as [|x l IH]; simpl; [done|].
  by rewrite sort_insert_Permutation, IH.
Qed.

#[local] Abbreviation in_order := (in_order comparefn).

Lemma sort_insert_HdRel y x l :
  in_order y x → HdRel in_order y l → HdRel in_order y (sort_insert comparefn x l).
Proof.
  intros Hyx Hl. destruct l as [|z l]; simpl; [by constructor|].
  case_decide; constructor; [done|]. by inv Hl.
Qed.

Lemma sort_insert_Sorted x l :
  Sorted in_order l → Sorted in_order (sort_insert comparefn x l).
Proof.
  induction 1 as [|y l Hl IH Hhd]; simpl.
  - repeat constructor.
  - case_decide as Hxy.
    + constructor; [by constructor|]. constructor. by left.
    + constructor; [done|]. apply sort_insert_HdRel; [|done]. by right.
Qed.

Lemma sort_Sorted l : Sorted in_order (sort comparefn l).
Proof.
  induction l as [|x l IH]; simpl; [constructor|].
  by apply sort_insert_Sorted.
Qed.

(** With a comparison function that is consistent on the elements of the
    list, every element precedes all later ones. *)
Lemma sort_StronglySorted (R : relation A) `{!Transitive R} l :
  (∀ a b, a ∈ l → b ∈ l → in_order a b → R a b) →
  StronglySorted R (sort comparefn l).
Proof.
  induction l as [|x l IH]; intros HR; simpl; [constructor|].
  assert (StronglySorted R (sort comparefn l)) as Hs.
  { apply IH. intros a b Ha Hb. apply HR; by right. }
  assert (∀ a, a ∈ sort comparefn l → a ∈ l) as Hin.
  { intros a. by rewrite sort_Permutation. }
  clear IH. induction Hs as [|y l' Hs IH Hall]; simpl.
  - repeat constructor.
  - rewrite Forall_forall in Hall.
    assert (y ∈ l) as Hy by (apply Hin; left).
    case_decide as Hxy.
    + assert (R x y) as Rxy by (apply HR; [left|by right|by left]).
      constructor; [by constructor; [|apply Forall_forall]|].
      constructor; [done|]. apply Forall_forall. intros z Hz.
      etrans; [exact Rxy|]. by apply Hall.
    + assert (R y x) as Ryx by (apply HR; [by right|left|by right]).
      constructor.
      * apply IH. intros a Ha. apply Hin. by right.
      * apply Forall_forall. intros z Hz.
        rewrite sort_insert_Permutation in Hz.
        apply elem_of_cons in Hz as [->|Hz]; [done|by apply Hall].
Qed.
End sort.

(** ** Photos of one user *)

Lemma prop_with_doc_id doc k :
  k ≠ "docId" → prop (with_doc_id doc) k = prop doc.2 k.
Proof. intros Hk. unfold prop, with_doc_id. by rewrite lookup_insert_ne. Qed.

Lemma by_newest_in_order a b ta tb :
  timestamp a = Some ta → timestamp b = Some tb →
  in_order by_newest a b → tb ≤ ta.
Proof.
  unfold timestamp, in_order, before, by_newest, minus.
  destruct (prop a "dateCreated"); try done.
  destruct (prop b "dateCreated"); try done.
  intros [= ->] [= ->]. simpl. lia.
Qed.

#[global] Instance newer_or_same_trans : Transitive newer_or_same.
Proof.
  intros a b c (ta & tb & Ha & Hb & Hab) (tb' & tc & Hb' & Hc & Hbc).
  exists ta, tc. rewrite Hb in Hb'. injection Hb' as <-.
  repeat split; [done..|lia].
Qed.

Lemma getUserPhotosByUserId_resolved userId n db r db' :
  getUserPhotosByUserId userId n db = (Resolved r, db') →
  r = sort by_newest
        (with_doc_id <$>
           take n (filter (λ d : snapshot, d.2 !! "userId" = Some (VStr userId))
                     (map_to_list (photos db)))).
Proof.
  unfold getUserPhotosByUserId, mbind, async_bind.
  destruct (get _ db) as [[docs|e] db1] eqn:E; [|done].
  apply get_resolved in E as (-> & _). intros [= <- <-].
  by rewrite select_limit_where_eq.
Qed.

(** C4 (as amended): [getUserPhotosByUserId] resolves, whenever the service
    does not fail, with a rearrangement of the first [limitQuery] photo
    documents whose [userId] field equals the argument, so with at most
    [limitQuery] records, all of that user; the limit cuts the fetch before
    the sort.  When the [dateCreated] fields of that user's photos are
    numbers, the list is in descending order of [dateCreated], each record
    being at least as new as every later one; two records may carry the
    same timestamp, so the order is not strict. *)
Theorem getUserPhotosByUserId_sorted_newest_first
    (db : service) (userId : string) (limitQuery : nat) :
  let fetched :=
    take limitQuery
      (filter (λ d : snapshot, d.2 !! "userId" = Some (VStr userId))
         (map_to_list (photos db))) in
  (faults db = [] →
   ∃ r, getUserPhotosByUserId userId limitQuery db = (Resolved r, db))
  ∧ ∀ r db',
      getUserPhotosByUserId userId limitQuery db = (Resolved r, db') →
      r ≡ₚ (λ doc : snapshot, <["docId" := VStr doc.1]> doc.2) <$> fetched
      ∧ Forall (λ p, p !! "userId" = Some (VStr userId)) r
      ∧ (length r ≤ limitQuery)%nat
      ∧ ((∀ id d, photos db !! id = Some d →
                  d !! "userId" = Some (VStr userId) →
                  is_Some (timestamp d)) →
         StronglySorted newer_or_same r ∧ Sorted newer_or_same r).
Proof.
  intros fetched. split.
  - intros H. eexists. unfold getUserPhotosByUserId, mbind, async_bind.
    by rewrite (get_no_faults _ _ H).
  - intros r db' Hrun. apply getUserPhotosByUserId_resolved in Hrun.
    fold fetched in Hrun.
    assert (r ≡ₚ with_doc_id <$> fetched) as Hperm
      by (subst r; apply sort_Permutation).
    assert (∀ p, p ∈ r → ∃ id d, p = with_doc_id (id, d)
              ∧ photos db !! id = Some d
              ∧ d !! "userId" = Some (VStr userId)) as Hfrom.
    { intros p Hp. rewrite Hperm in Hp.
      apply list_elem_of_fmap in Hp as ([id d] & -> & Hd).
      apply elem_of_take in Hd as (i & Hd%list_elem_of_lookup_2 & _).
      apply list_elem_of_filter in Hd as [Hu Hd%elem_of_map_to_list].
      by exists id, d. }
    split; [done|]. split; [|split].
    + apply Forall_forall. intros p (id & d & -> & _ & Hu)%Hfrom.
      unfold with_doc_id. by rewrite lookup_insert_ne.
    + rewrite Hperm, length_fmap. unfold fetched. rewrite length_take. lia.
    + intros Hnum.
      assert (StronglySorted newer_or_same r) as Hs;
        [|split; [done|by apply StronglySorted_Sorted]].
      rewrite Hrun. apply sort_StronglySorted; [apply _|].
      intros a b Ha Hb Hab. rewrite <-Hperm in Ha, Hb.
      apply Hfrom in Ha as (ia & da & -> & Hda & Hua).
      apply Hfrom in Hb as (ib & db0 & -> & Hdb & Hub).
      destruct (Hnum _ _ Hda Hua) as [ta Hta].
      destruct (Hnum _ _ Hdb Hub) as [tb Htb].
      assert (timestamp (with_doc_id (ia, da)) = Some ta) as Ea.
      { unfold timestamp. rewrite prop_with_doc_id by done. exact Hta. }
      assert (timestamp (with_doc_id (ib, db0)) = Some tb) as Eb.
      { unfold timestamp. rewrite prop_with_doc_id by done. exact Htb. }
      exists ta, tb. repeat split; [done..|].
      by apply (by_newest_in_order _ _ _ _ Ea Eb).
Qed.

Lemma getUserPhotosByUserId_sorted_newest_first_witness :
  ∃ r, getUserPhotosByUserId "u2" 5 db1 = (Resolved r, db1)
       ∧ Sorted newer_or_same r.
Proof.
  destruct (proj1 (getUserPhotosByUserId_sorted_newest_first db1 "u2" 5)
              eq_refl) as [r Hr].
  exists r. split; [exact Hr|].
  apply (proj2 (getUserPhotosByUserId_sorted_newest_first db1 "u2" 5) r db1 Hr).
  change (map_Forall (λ _ (d : fields),
            d !! "userId" = Some (VStr "u2") → is_Some (timestamp d))
            (photos db1)).
  compute_done.
Defined.

(** C4, as stated, at two photos taken in the same millisecond: the
    result is not strictly descending. *)
Lemma getUserPhotosByUserId_not_strictly_sorted :
  let r := [with_doc_id ("p3", photo_doc "u2" 30 [] []);
            with_doc_id ("p2", photo_doc "u2" 30 [] ["u1"]);
            with_doc_id ("p1", photo_doc "u2" 10 ["u1"] [])] in
  getUserPhotosByUserId "u2" 5 db1 = (Resolved r, db1)
  ∧ ¬ Sorted strictly_newer r.
Proof.
  split; [vm_refl|].
  intros Hs. inv Hs. match goal with H : HdRel _ _ _ |- _ => inv H end.
  match goal with H : strictly_newer _ _ |- _ =>
    destruct H as (ta & tb & Ha & Hb & Hlt) end.
  vm_compute in Ha, Hb. injection Ha as <-. injection Hb as <-. lia.
Qed.

(** ** Feed assembly *)

Lemma includes_resolved recv x db b db' :
  includes recv x db = (Resolved b, db') →
  db' = db
  ∧ match recv with
    | VArr l => b = bool_decide (VStr x ∈ l)
    | VStr s => b = is_substring x s
    | _ => False
    end.
Proof. destruct recv; simpl; intros [= <- <-] || intros [=]; done. Qed.

Lemma photoWithUserData_resolved userId photo db r db' :
  photoWithUserData userId photo db = (Resolved r, db') →
  ∃ liked saved id owner,
    includes (prop photo "likes") userId db = (Resolved liked, db)
    ∧ includes (prop photo "saved") userId db = (Resolved saved, db)
    ∧ users db !! id = Some owner
    ∧ owner !! "userId" = Some (prop photo "userId")
    ∧ r = <["userSavedPhoto" := VBool saved]>
            (<["userLikedPhoto" := VBool liked]>
               (photo ∪ {["user" := owner_projection (with_doc_id (id, owner))]}))
    ∧ users db' = users db ∧ photos db' = photos db.
Proof.
  unfold photoWithUserData, mbind, async_bind.
  destruct (includes (prop photo "likes") userId db) as [[liked|e] db1] eqn:E1;
    [|done].
  pose proof (includes_resolved _ _ _ _ _ E1) as [-> _].
  destruct (includes (prop photo "saved") userId db) as [[saved|e] db2] eqn:E2;
    [|done].
  pose proof (includes_resolved _ _ _ _ _ E2) as [-> _].
  destruct (getUserDataByUserId _ db) as [[o|e] db3] eqn:E3; [|done].
  apply getUserDataByUserId_resolved in E3 as (-> & Hu & Hp).
  destruct (filter _ _) as [|[id owner] l] eqn:E; simpl; [done|].
  intros [= <- <-]. exists liked, saved, id, owner.
  assert ((id, owner) ∈ filter (λ d : snapshot,
              d.2 !! "userId" = Some (prop photo "userId"))
            (map_to_list (users db))) as Hin by (rewrite E; left).
  apply list_elem_of_filter in Hin as [Hid Hin%elem_of_map_to_list].
  done.
Qed.

(** The owner lookup finds nothing: the destructuring of [undefined]
    throws, unless an earlier step has already rejected. *)
Lemma photoWithUserData_no_owner userId photo db :
  (∀ id owner, users db !! id = Some owner →
               owner !! "userId" ≠ Some (prop photo "userId")) →
  ∃ e db', photoWithUserData userId photo db = (Rejected e, db').
Proof.
  intros Hnone.
  destruct (photoWithUserData userId photo db) as [[r|e] db'] eqn:E; [|eauto].
  apply photoWithUserData_resolved in E
    as (? & ? & id & owner & _ & _ & Ho & Hid & _).
  by destruct (Hnone _ _ Ho).
Qed.

Lemma promise_all_resolved {A B} (f : A → async B) xs db ys db' :
  (∀ x db0 y db1, f x db0 = (Resolved y, db1) →
     users db1 = users db0 ∧ photos db1 = photos db0) →
  promise_all f xs db = (Resolved ys, db') →
  Forall2 (λ x y, ∃ db0 db1, users db0 = users db ∧ photos db0 = photos db
                             ∧ f x db0 = (Resolved y, db1)) xs ys.
Proof.
  intros Hf. revert db ys. induction xs as [|x xs IH]; intros db ys; simpl.
  - intros [= <- <-]. constructor.
  - unfold mbind, async_bind.
    destruct (f x db) as [[y|e] db1] eqn:E; [|done].
    fold (@promise_all A B).
    destruct (promise_all f xs db1) as [[ys'|e] db2] eqn:E'; [|done].
    intros [= <- <-]. destruct (Hf _ _ _ _ E) as [Hu Hp].
    constructor; [by exists db, db1|].
    eapply Forall2_impl; [by eapply IH|]. simpl.
    intros x' y' (db0 & db3 & Hu' & Hp' & Hrun).
    exists db0, db3. split; [congruence|split; [congruence|done]].
Qed.

Lemma promise_all_rejected {A B} (f : A → async B) xs db x :
  (∀ x db0 y db1, f x db0 = (Resolved y, db1) →
     users db1 = users db0 ∧ photos db1 = photos db0) →
  x ∈ xs →
  (∀ db0, users db0 = users db → photos db0 = photos db →
          ∃ e db1, f x db0 = (Rejected e, db1)) →
  ∃ e db', promise_all f xs db = (Rejected e, db').
Proof.
  intros Hf Hx Hrej.
  destruct (promise_all f xs db) as [[ys|e] db'] eqn:E; [|eauto].
  apply promise_all_resolved in E; [|done].
  apply list_elem_of_lookup in Hx as [i Hi].
  destruct (Forall2_lookup_l _ _ _ _ _ E Hi)
    as (y & _ & db0 & db1 & Hu & Hp & Hrun).
  destruct (Hrej db0 Hu Hp) as (e & db2 & Hrun'). congruence.
Qed.

Lemma photoWithUserData_data userId photo db r db' :
  photoWithUserData userId photo db = (Resolved r, db') →
  users db' = users db ∧ photos db' = photos db.
Proof.
  intros (?&?&?&?&_&_&_&_&_&?&?)%photoWithUserData_resolved. done.
Qed.

(** The feed pairs each fetched photo document with the record built for
    it. *)
Lemma getFollowingUserPhotosByUserId_resolved userId userFollowing db r db' :
  getFollowingUserPhotosByUserId userId userFollowing db = (Resolved r, db') →
  Forall2 (λ (doc : snapshot) rec,
             ∃ db0 db1, users db0 = users db ∧ photos db0 = photos db
               ∧ photoWithUserData userId (with_doc_id doc) db0
                 = (Resolved rec, db1))
    (filter (λ d : snapshot, satisfies (FieldIn "userId" (VStr <$> userFollowing)) d)
       (map_to_list (photos db))) r.
Proof.
  unfold getFollowingUserPhotosByUserId, mbind, async_bind.
  destruct (get _ db) as [[docs|e] db1] eqn:E; [|done].
  apply get_resolved in E as (-> & Hu & Hp & _).
  rewrite select_where_in. simpl. intros Hrun.
  apply promise_all_resolved in Hrun;
    [|intros ????; apply photoWithUserData_data].
  apply Forall2_fmap_l in Hrun. eapply Forall2_impl; [exact Hrun|]. simpl.
  intros doc rec (db0 & db2 & Hu' & Hp' & Hrun').
  exists db0, db2. split; [congruence|split; [congruence|done]].
Qed.

(** Where each field of a feed record comes from.  The record is built as
    [{ user, ...photo, userLikedPhoto, userSavedPhoto }]: the two flags are
    written after the photo's fields, the [user] object before them. *)
Lemma feed_record_fields
    (db : service) (userId : string) (userFollowing : list string)
    (r : list fields) (db' : service) :
  getFollowingUserPhotosByUserId userId userFollowing db = (Resolved r, db') →
  ∀ rec, rec ∈ r →
    ∃ id photo oid owner,
      photos db !! id = Some photo
      ∧ users db !! oid = Some owner
      ∧ owner !! "userId" = photo !! "userId"
      ∧ (∃ f, f ∈ userFollowing ∧ photo !! "userId" = Some (VStr f))
      ∧ rec !! "docId" = Some (VStr id)
      ∧ (∀ likes, photo !! "likes" = Some (VArr likes) →
           rec !! "userLikedPhoto"
           = Some (VBool (bool_decide (VStr userId ∈ likes))))
      ∧ (∀ saved, photo !! "saved" = Some (VArr saved) →
           rec !! "userSavedPhoto"
           = Some (VBool (bool_decide (VStr userId ∈ saved))))
      ∧ (photo !! "user" = None →
           rec !! "user"
           = Some (VObj [("username", prop owner "username");
                         ("photoURL", prop owner "photoURL");
                         ("verifiedUser", prop owner "verifiedUser");
                         ("docId", VStr oid)])).
Proof.
  intros Hrun rec Hrec.
  apply getFollowingUserPhotosByUserId_resolved in Hrun.
  apply list_elem_of_lookup in Hrec as [i Hi].
  destruct (Forall2_lookup_r _ _ _ _ _ Hrun Hi)
    as ([id photo] & Hdoc%list_elem_of_lookup_2 & db0 & db1 & Hu & Hp & Hone).
  apply list_elem_of_filter in Hdoc as [Hsat Hdoc%elem_of_map_to_list].
  destruct Hsat as (v & (f & -> & Hf)%list_elem_of_fmap & Hv). simpl in Hv.
  apply photoWithUserData_resolved in Hone
    as (liked & saved & oid & owner & Hl & Hs & Ho & Hoid & -> & _).
  rewrite prop_with_doc_id in Hl, Hs, Hoid by done. simpl in Hl, Hs, Hoid.
  rewrite Hu in Ho. unfold prop in Hoid at 1. rewrite Hv in Hoid.
  simpl in Hoid.
  exists id, photo, oid, owner. split_and!; [done|done|congruence|by eauto|..].
  - rewrite !lookup_insert_ne by done.
    apply lookup_union_Some_l. unfold with_doc_id. apply lookup_insert_eq.
  - intros likes Hlikes. rewrite lookup_insert_ne, lookup_insert_eq by done.
    apply includes_resolved in Hl as [_ Hl].
    unfold prop in Hl. rewrite Hlikes in Hl. simpl in Hl. by rewrite Hl.
  - intros saved' Hsaved. rewrite lookup_insert_eq.
    apply includes_resolved in Hs as [_ Hs].
    unfold prop in Hs. rewrite Hsaved in Hs. simpl in Hs. by rewrite Hs.
  - intros Hnone. rewrite !lookup_insert_ne by done.
    rewrite lookup_union_r.
    + rewrite lookup_singleton_eq. f_equal.
      unfold owner_projection, prop, with_doc_id. simpl.
      rewrite !lookup_insert_ne by done. by rewrite lookup_insert_eq.
    + unfold with_doc_id. simpl. by rewrite lookup_insert_ne.
Qed.

(** C5: on photo documents of the data model, which have no field named
    [user], every record of the feed stems from a fetched photo document
    of a followed user and from the user document of its owner;
    [userLikedPhoto] is true exactly when the calling [userId] is in the
    photo's [likes] array as fetched, [userSavedPhoto] exactly when it is
    in the [saved] array, and [user] is the object made of the owner's
    [username], [photoURL], [verifiedUser] and document identifier. *)
Theorem getFollowingUserPhotosByUserId_derived_fields
    (db : service) (userId : string) (userFollowing : list string)
    (r : list fields) (db' : service) :
  (∀ id photo, photos db !! id = Some photo → photo !! "user" = None) →
  getFollowingUserPhotosByUserId userId userFollowing db = (Resolved r, db') →
  ∀ rec, rec ∈ r →
    ∃ id photo oid owner,
      photos db !! id = Some photo
      ∧ users db !! oid = Some owner
      ∧ owner !! "userId" = photo !! "userId"
      ∧ (∃ f, f ∈ userFollowing ∧ photo !! "userId" = Some (VStr f))
      ∧ rec !! "docId" = Some (VStr id)
      ∧ (∀ likes, photo !! "likes" = Some (VArr likes) →
           rec !! "userLikedPhoto"
           = Some (VBool (bool_decide (VStr userId ∈ likes))))
      ∧ (∀ saved, photo !! "saved" = Some (VArr saved) →
           rec !! "userSavedPhoto"
           = Some (VBool (bool_decide (VStr userId ∈ saved))))
      ∧ rec !! "user"
        = Some (VObj [("username", prop owner "username");
                      ("photoURL", prop owner "photoURL");
                      ("verifiedUser", prop owner "verifiedUser");
                      ("docId", VStr oid)]).
Proof.
  intros Hmodel Hrun rec Hrec.
  destruct (feed_record_fields _ _ _ _ _ Hrun rec Hrec)
    as (id & photo & oid & owner & Hp & Ho & Hid & Hf & Hdoc & Hl & Hs & Hu).
  exists id, photo, oid, owner. split_and!; [done..|].
  apply Hu. by apply (Hmodel id).
Qed.

Lemma getFollowingUserPhotosByUserId_derived_fields_witness :
  ∃ r, getFollowingUserPhotosByUserId "u1" ["u3"] db1 = (Resolved r, db1)
    ∧ ∀ rec, rec ∈ r →
        ∃ id photo oid owner,
          photos db1 !! id = Some photo
          ∧ users db1 !! oid = Some owner
          ∧ owner !! "userId" = photo !! "userId"
          ∧ (∃ f, f ∈ ["u3"] ∧ photo !! "userId" = Some (VStr f))
          ∧ rec !! "docId" = Some (VStr id)
          ∧ (∀ likes, photo !! "likes" = Some (VArr likes) →
               rec !! "userLikedPhoto"
               = Some (VBool (bool_decide (VStr "u1" ∈ likes))))
          ∧ (∀ saved, photo !! "saved" = Some (VArr saved) →
               rec !! "userSavedPhoto"
               = Some (VBool (bool_decide (VStr "u1" ∈ saved))))
          ∧ rec !! "user"
            = Some (VObj [("username", prop owner "username");
                          ("photoURL", prop owner "photoURL");
                          ("verifiedUser", prop owner "verifiedUser");
                          ("docId", VStr oid)]).
Proof.
  exists [<["userSavedPhoto" := VBool false]>
            (<["userLikedPhoto" := VBool false]>
               (with_doc_id ("p4", photo_doc "u3" 20 [] [])
                ∪ {["user" := VObj [("username", VStr "carol");
                                    ("photoURL", VStr "");
                                    ("verifiedUser", VBool false);
                                    ("docId", VStr "d3")]]}))].
  split; [vm_refl|].
  apply (getFollowingUserPhotosByUserId_derived_fields db1 "u1" ["u3"] _ db1).
  - change (map_Forall (λ _ (photo : fields), photo !! "user" = None)
              (photos db1)).
    compute_done.
  - vm_refl.
Defined.

Lemma photoWithUserData_no_faults userId photo db :
  faults db = [] →
  ∃ o, photoWithUserData userId photo db = (o, db)
       ∧ ∀ e, o = Rejected e → e = TypeError.
Proof.
  intros H. unfold photoWithUserData, mbind, async_bind.
  assert (∀ recv, (∃ b, includes recv userId db = (Resolved b, db))
                  ∨ includes recv userId db = (Rejected TypeError, db)) as Hinc.
  { intros []; simpl; eauto. }
  destruct (Hinc (prop photo "likes")) as [[liked ->]| ->];
    [|eexists; split; [done|by intros ? [= <-]]].
  destruct (Hinc (prop photo "saved")) as [[saved ->]| ->];
    [|eexists; split; [done|by intros ? [= <-]]].
  rewrite (getUserDataByUserId_run _ _ H).
  destruct (head _) as [o|]; simpl; eexists; (split; [done|]); [done|].
  by intros ? [= <-].
Qed.

Lemma promise_all_no_faults {A B} (f : A → async B) xs db :
  (∀ x, ∃ o, f x db = (o, db) ∧ ∀ e, o = Rejected e → e = TypeError) →
  ∃ o, promise_all f xs db = (o, db) ∧ ∀ e, o = Rejected e → e = TypeError.
Proof.
  intros Hf. induction xs as [|x xs (o & IH & He)]; simpl.
  - eexists. split; [done|]. by intros ? [=].
  - unfold mbind, async_bind. fold (@promise_all A B).
    destruct (Hf x) as ([y|e] & -> & Hx).
    + rewrite IH. destruct o as [ys|e]; eexists; (split; [done|]).
      * by intros ? [=].
      * intros e' [= <-]. by apply He.
    + eexists. split; [done|]. intros e' [= <-]. by apply Hx.
Qed.

(** C9: when a fetched photo's [userId] has no user document, the owner
    lookup resolves with [undefined], the destructuring throws, and
    [getFollowingUserPhotosByUserId] rejects, with a [TypeError] when the
    service itself does not fail.  So a feed is returned only if every
    fetched photo's owner has a user document. *)
Theorem getFollowingUserPhotosByUserId_rejects_on_missing_owner
    (db : service) (userId : string) (userFollowing : list string) :
  (∀ id photo f,
     photos db !! id = Some photo →
     f ∈ userFollowing →
     photo !! "userId" = Some (VStr f) →
     (∀ oid owner, users db !! oid = Some owner →
                   owner !! "userId" ≠ Some (VStr f)) →
     (faults db = [] →
      getUserDataByUserId (VStr f) db = (Resolved None, db)
      ∧ getFollowingUserPhotosByUserId userId userFollowing db
        = (Rejected TypeError, db))
     ∧ ∃ e db', getFollowingUserPhotosByUserId userId userFollowing db
                = (Rejected e, db'))
  ∧ (∀ r db',
       getFollowingUserPhotosByUserId userId userFollowing db
       = (Resolved r, db') →
       ∀ id photo f,
         photos db !! id = Some photo →
         f ∈ userFollowing →
         photo !! "userId" = Some (VStr f) →
         ∃ oid owner, users db !! oid = Some owner
                      ∧ owner !! "userId" = Some (VStr f)).
Proof.
  assert (∀ id photo f,
     photos db !! id = Some photo → f ∈ userFollowing →
     photo !! "userId" = Some (VStr f) →
     (∀ oid owner, users db !! oid = Some owner →
                   owner !! "userId" ≠ Some (VStr f)) →
     ∃ e db', getFollowingUserPhotosByUserId userId userFollowing db
              = (Rejected e, db')) as Hrej.
  { intros id photo f Hphoto Hf Hid Hnone.
    unfold getFollowingUserPhotosByUserId, mbind, async_bind.
    destruct (get _ db) as [[docs|e] db1] eqn:E; [|eauto].
    apply get_resolved in E as (-> & Hu & Hp & _). rewrite select_where_in.
    simpl. apply (promise_all_rejected _ _ _ (with_doc_id (id, photo))).
    - intros ????; apply photoWithUserData_data.
    - apply list_elem_of_fmap. exists (id, photo). split; [done|].
      apply list_elem_of_filter. split; [|by apply elem_of_map_to_list].
      exists (VStr f). split; [|done]. apply list_elem_of_fmap; eauto.
    - intros db0 Hu0 _. apply photoWithUserData_no_owner.
      rewrite prop_with_doc_id by done. unfold prop. simpl. rewrite Hid.
      simpl. intros oid owner Ho. apply (Hnone oid). congruence. }
  split.
  - intros id photo f Hphoto Hf Hid Hnone. split; [|by eapply Hrej].
    intros H. split.
    + rewrite (getUserDataByUserId_run _ _ H). rewrite filter_none; [done|].
      intros [oid owner] Hin%elem_of_map_to_list. by apply (Hnone oid).
    + destruct (Hrej _ _ _ Hphoto Hf Hid Hnone) as (e & db' & Hrun).
      revert Hrun. unfold getFollowingUserPhotosByUserId, mbind, async_bind.
      rewrite (get_no_faults _ _ H).
      destruct (promise_all_no_faults (photoWithUserData userId)
                  (with_doc_id <$> select (where_ (FieldIn "userId"
                     (VStr <$> userFollowing)) (collection_ Photos)) db) db)
        as (o & -> & He).
      { intros x. by apply photoWithUserData_no_faults. }
      intros [= -> <-]. by rewrite (He e).
  - intros r db' Hrun id photo f Hphoto Hf Hid.
    destruct (decide (Exists (λ d : snapshot, d.2 !! "userId" = Some (VStr f))
                        (map_to_list (users db)))) as [Hyes|Hno].
    + apply Exists_exists in Hyes as ([oid owner] & Hin & Ho).
      apply elem_of_map_to_list in Hin. eauto.
    + destruct (Hrej _ _ _ Hphoto Hf Hid) as (e & db2 & Hrun'); [|congruence].
      intros oid owner Ho Hid'. apply Hno, Exists_exists. exists (oid, owner).
      split; [by apply elem_of_map_to_list|done].
Qed.

Lemma getFollowingUserPhotosByUserId_rejects_on_missing_owner_witness :
  getUserDataByUserId (VStr "ghost") db3 = (Resolved None, db3)
  ∧ getFollowingUserPhotosByUserId "u1" ["ghost"] db3
    = (Rejected TypeError, db3).
Proof.
  refine (proj1 (proj1 (getFollowingUserPhotosByUserId_rejects_on_missing_owner
                          db3 "u1" ["ghost"])
                   "p1" (photo_doc "ghost" 10 [] []) "ghost" _ _ _ _) _).
  - vm_refl.
  - compute_done.
  - vm_refl.
  - change (map_Forall (λ _ (d : fields), d !! "userId" ≠ Some (VStr "ghost"))
              (users db3)).
    compute_done.
  - reflexivity.
Defined.

(** ** Array transforms and document updates *)

Lemma update_no_faults c id field t db d :
  faults db = [] →
  docs_of c db !! id = Some d →
  update c id field t db
  = (Resolved (),
     with_docs c (<[id := <[field := apply_transform t (d !! field)]> d]>
                    (docs_of c db)) db).
Proof.
  intros H Hd. unfold update, mbind, async_bind, served.
  by rewrite (request_no_faults _ H), Hd.
Qed.

(** Whatever the outcome of an update, the service either keeps its data or
    holds the transformed document. *)
Lemma update_data c id field t db :
  let db' := (update c id field t db).2 in
  faults db' = tail (faults db)
  ∧ ((users db' = users db ∧ photos db' = photos db)
     ∨ ∃ d, docs_of c db !! id = Some d
            ∧ db' = with_docs c
                      (<[id := <[field := apply_transform t (d !! field)]> d]>
                         (docs_of c db))
                      (Service (users db) (photos db) (tail (faults db)))).
Proof.
  unfold update, mbind, async_bind, served.
  pose proof (request_data db) as (Hu & Hp & Hf).
  destruct (request db) as [[[]|e] db1]; simpl in *; [|by auto].
  assert (docs_of c db1 = docs_of c db) as Hc by (by destruct c).
  rewrite Hc. destruct (docs_of c db !! id) as [d|] eqn:Hd; simpl; [|by auto].
  split; [by destruct c|]. right. exists d. split; [done|].
  destruct db1; simpl in *. by subst.
Qed.

Lemma arrayUnion_idempotent v old :
  apply_transform (arrayUnion v) (Some (apply_transform (arrayUnion v) old))
  = apply_transform (arrayUnion v) old.
Proof.
  unfold apply_transform.
  set (l := match old with Some (VArr l) => l | _ => [] end).
  destruct (decide (v ∈ l)) as [Hin|Hnin].
  - by rewrite decide_True.
  - rewrite decide_True; [done|]. apply elem_of_app. right. by left.
Qed.

Lemma arrayRemove_arrayUnion (v : value) (l : list value) :
  v ∉ l → filter (λ x, x ≠ v) (l ++ [v]) = l.
Proof.
  intros Hv. rewrite filter_app, filter_cons_False, filter_nil, app_nil_r
    by (intros ?; done).
  induction l as [|x l IH]; [done|].
  apply not_elem_of_cons in Hv as [Hx Hl].
  rewrite filter_cons_True by done. f_equal. by apply IH.
Qed.

(** ** Comments *)

(** C8: on a photo document whose [comments] array is empty,
    [addPostComments] leaves the one-element array of the comment; adding
    an identical record again changes nothing, whatever the array held,
    since the union adds only elements the array does not hold. *)
Theorem addPostComments_idempotent
    (db : service) (postDocId : string) (photo : fields) (c : value) :
  faults db = [] →
  photos db !! postDocId = Some photo →
  ∃ db1 photo1,
    addPostComments postDocId c db = (Resolved (), db1)
    ∧ photos db1 !! postDocId = Some photo1
    ∧ (photo !! "comments" = Some (VArr []) →
       photo1 !! "comments" = Some (VArr [c]))
    ∧ (∀ l, photo !! "comments" = Some (VArr l) → c ∈ l → photo1 = photo)
    ∧ addPostComments postDocId c db1 = (Resolved (), db1).
Proof.
  intros H Hphoto. unfold addPostComments.
  rewrite (update_no_faults Photos _ _ _ _ photo H Hphoto). simpl.
  eexists _, _. split; [done|]. simpl. rewrite lookup_insert_eq.
  split; [done|]. split; [|split].
  - intros ->. by rewrite lookup_insert_eq.
  - intros l Hl Hc. apply insert_id. rewrite Hl. unfold apply_transform.
    by rewrite decide_True.
  - erewrite (update_no_faults Photos); [|done|simpl; apply lookup_insert_eq].
    simpl. rewrite lookup_insert_eq, arrayUnion_idempotent.
    by rewrite insert_insert_eq, (insert_insert_eq photo).
Qed.

Lemma addPostComments_idempotent_witness :
  ∃ db1 photo1,
    addPostComments "p4" (VObj [("comment", VStr "nice")]) db1
    = (Resolved (), db1)
    ∧ photos db1 !! "p4" = Some photo1
    ∧ photo1 !! "comments" = Some (VArr [VObj [("comment", VStr "nice")]]).
Proof.
  destruct (addPostComments_idempotent db1 "p4" (photo_doc "u3" 20 [] [])
              (VObj [("comment", VStr "nice")]) eq_refl)
    as (d & p & _ & Hp & Hc & _ & Hagain); [vm_refl|].
  exists d, p. split; [exact Hagain|]. split; [exact Hp|].
  apply Hc. vm_refl.
Defined.

(** ** Follow graph mutation *)

Lemma updateUserFollowingField_unfold suggestedUserId userId status :
  updateUserFollowingField suggestedUserId userId status
  = (docs ← get (where_ (FieldEq "userId" (VStr userId)) (collection_ Users));
     for_each (write_following (following_transform suggestedUserId status))
       docs).
Proof. by destruct status. Qed.

Lemma fmap_fst_prod_map {A B C} (g : B → C) (l : list (A * B)) :
  (prod_map id g <$> l).*1 = l.*1.
Proof. induction l as [|[a b] l IH]; simpl; [done|by f_equal]. Qed.

Lemma write_following_no_faults t (doc : snapshot) db :
  faults db = [] →
  users db !! doc.1 = Some doc.2 →
  write_following t doc db
  = (Resolved (),
     Service (<[doc.1 := set_following t doc.2]> (users db)) (photos db) []).
Proof.
  intros H Hd. unfold write_following, unawaited.
  rewrite (update_no_faults Users _ _ _ _ doc.2 H Hd). simpl. by rewrite H.
Qed.

Lemma for_each_write_no_faults t (l : list snapshot) db :
  faults db = [] →
  NoDup l.*1 →
  (∀ doc, doc ∈ l → users db !! doc.1 = Some doc.2) →
  for_each (write_following t) l db
  = (Resolved (),
     Service (list_to_map (prod_map id (set_following t) <$> l) ∪ users db)
       (photos db) []).
Proof.
  revert db. induction l as [|[id d] l IH]; intros db H Hnd Hl; simpl.
  - rewrite (left_id_L ∅ (∪)). destruct db; simpl in *. by subst.
  - unfold mbind, async_bind.
    rewrite write_following_no_faults by (done || apply (Hl (id, d)); left).
    simpl in *. apply NoDup_cons in Hnd as [Hid Hnd].
    rewrite IH; simpl; [|done..|].
    + do 2 f_equal. rewrite <-insert_union_l. symmetry. apply insert_union_r.
      apply not_elem_of_list_to_map_1.
      by rewrite fmap_fst_prod_map.
    + intros doc Hdoc. rewrite lookup_insert_ne; [by apply Hl; right|].
      intros ->. apply Hid. apply list_elem_of_fmap. eauto.
Qed.

Lemma toggled_docs t userId (m : collection) :
  list_to_map (prod_map id (set_following t) <$>
                 filter (λ d : snapshot, d.2 !! "userId" = Some (VStr userId))
                   (map_to_list m)) ∪ m
  = toggled t userId <$> m.
Proof.
  apply map_eq. intros j. rewrite lookup_fmap, lookup_union.
  destruct (m !! j) as [d|] eqn:Hj; simpl.
  - unfold toggled. case_decide as Hu.
    + erewrite (elem_of_list_to_map_1 _ j (set_following t d)); [done| |].
      * rewrite fmap_fst_prod_map.
        apply NoDup_fmap_fst.
        -- intros i x y [_ Hx%elem_of_map_to_list]%list_elem_of_filter
             [_ Hy%elem_of_map_to_list]%list_elem_of_filter. congruence.
        -- apply NoDup_filter, NoDup_map_to_list.
      * apply list_elem_of_fmap. exists (j, d). split; [done|].
        apply list_elem_of_filter. split; [done|by apply elem_of_map_to_list].
    + rewrite (not_elem_of_list_to_map_1 _ j); [done|].
      rewrite fmap_fst_prod_map.
      intros ([j' d'] & -> & [Hu' Hd'%elem_of_map_to_list]%list_elem_of_filter)
        %list_elem_of_fmap.
      simpl in *. congruence.
  - rewrite (not_elem_of_list_to_map_1 _ j); [done|].
    rewrite fmap_fst_prod_map.
    intros ([j' d'] & -> & [Hu' Hd'%elem_of_map_to_list]%list_elem_of_filter)
      %list_elem_of_fmap.
    simpl in *. congruence.
Qed.

(** With no service failure the call resolves once every user document
    with the given [userId] has its [following] array transformed. *)
Lemma updateUserFollowingField_no_faults suggestedUserId userId status db :
  faults db = [] →
  updateUserFollowingField suggestedUserId userId status db
  = (Resolved (),
     Service (toggled (following_transform suggestedUserId status) userId
                <$> users db) (photos db) []).
Proof.
  intros H. rewrite updateUserFollowingField_unfold.
  unfold mbind at 1, async_bind at 1.
  rewrite (get_no_faults _ _ H), select_where_eq. simpl.
  rewrite for_each_write_no_faults; [by rewrite toggled_docs|done| |].
  - apply NoDup_fmap_fst.
    + intros i x y [_ Hx%elem_of_map_to_list]%list_elem_of_filter
        [_ Hy%elem_of_map_to_list]%list_elem_of_filter. congruence.
    + apply NoDup_filter, NoDup_map_to_list.
  - intros [id d] [_ Hd%elem_of_map_to_list]%list_elem_of_filter. done.
Qed.

Lemma write_following_data t (doc : snapshot) db :
  ∃ db', write_following t doc db = (Resolved (), db')
    ∧ photos db' = photos db
    ∧ (users db' = users db
       ∨ ∃ d, users db !! doc.1 = Some d
              ∧ users db' = <[doc.1 := set_following t d]> (users db)).
Proof.
  unfold write_following, unawaited. eexists. split; [done|].
  destruct (update_data Users doc.1 "following" t db)
    as (_ & [[Hu Hp]|(d & Hd & ->)]); simpl in *; [by auto|].
  split; [done|]. right. by exists d.
Qed.

(** Also under service failures, the unawaited writes touch nothing but the
    [following] field of the documents they were issued for. *)
Lemma for_each_write_frame t (l : list snapshot) db :
  NoDup l.*1 →
  (∀ doc, doc ∈ l → users db !! doc.1 = Some doc.2) →
  ∃ db', for_each (write_following t) l db = (Resolved (), db')
    ∧ photos db' = photos db
    ∧ ∀ j, users db' !! j = users db !! j
           ∨ ∃ d, (j, d) ∈ l ∧ users db' !! j = Some (set_following t d).
Proof.
  revert db. induction l as [|[id d] l IH]; intros db Hnd Hl; simpl.
  - exists db. by auto.
  - unfold mbind, async_bind.
    destruct (write_following_data t (id, d) db) as (db1 & -> & Hp & Hu).
    simpl in *. apply NoDup_cons in Hnd as [Hid Hnd].
    assert (∀ j, j ≠ id → users db1 !! j = users db !! j) as Hother.
    { intros j Hj. destruct Hu as [->|(d0 & _ & ->)]; [done|].
      by rewrite lookup_insert_ne. }
    destruct (IH db1 Hnd) as (db' & Hrun & Hp' & Hframe).
    { intros doc Hdoc. rewrite Hother; [apply Hl; by right|].
      intros <-. apply Hid. apply list_elem_of_fmap. eauto. }
    exists db'. split; [done|]. split; [congruence|]. intros j.
    destruct (Hframe j) as [Hj|(d' & Hin & Hj)].
    + destruct (decide (j = id)) as [->|Hne]; [|left; by rewrite Hj, Hother].
      destruct Hu as [Hu|(d0 & Hd0 & Hu)]; [left; by rewrite Hj, Hu|].
      right. exists d. split; [left|]. rewrite Hj, Hu, lookup_insert_eq.
      specialize (Hl (id, d)). simpl in Hl. rewrite Hl in Hd0 by left.
      by injection Hd0 as <-.
    + right. exists d'. split; [by right|done].
Qed.

(** C10: [updateUserFollowingField] leaves the photos and every user
    document whose [userId] differs as they are, and changes no field other
    than [following] in the others, whatever the service does.  When the
    service does not fail, the call resolves with the [following] array of
    every user document with that [userId] transformed, and without any
    change of state when there is no such document. *)
Theorem updateUserFollowingField_only_following
    (db : service) (suggestedUserId userId : string) (status : bool) :
  (∀ o db',
     updateUserFollowingField suggestedUserId userId status db = (o, db') →
     photos db' = photos db
     ∧ ∀ id,
         match users db !! id with
         | None => users db' !! id = None
         | Some d =>
             ∃ d', users db' !! id = Some d'
                   ∧ (∀ k, k ≠ "following" → d' !! k = d !! k)
                   ∧ (d !! "userId" ≠ Some (VStr userId) → d' = d)
         end)
  ∧ (faults db = [] →
     ∃ db',
       updateUserFollowingField suggestedUserId userId status db
       = (Resolved (), db')
       ∧ ∀ id d,
           users db !! id = Some d →
           d !! "userId" = Some (VStr userId) →
           ∃ d', users db' !! id = Some d'
                 ∧ d' !! "following"
                   = Some (apply_transform
                             (if status
                              then arrayRemove (VStr suggestedUserId)
                              else arrayUnion (VStr suggestedUserId))
                             (d !! "following")))
  ∧ (faults db = [] →
     (∀ id d, users db !! id = Some d →
              d !! "userId" ≠ Some (VStr userId)) →
     updateUserFollowingField suggestedUserId userId status db
     = (Resolved (), db)).
Proof.
  split; [|split].
  - intros o db'. rewrite updateUserFollowingField_unfold.
    unfold mbind at 1, async_bind at 1.
    pose proof (get_data (where_ (FieldEq "userId" (VStr userId))
                            (collection_ Users)) db) as [Hgu Hgp].
    destruct (get _ db) as [[docs|e] db1] eqn:E; simpl in *.
    + apply get_resolved in E as (-> & _). rewrite select_where_eq. simpl.
      destruct (for_each_write_frame
                  (following_transform suggestedUserId status)
                  (filter (λ d : snapshot, d.2 !! "userId" = Some (VStr userId))
                     (map_to_list (users db))) db1)
        as (db2 & -> & Hp & Hframe).
      * apply NoDup_fmap_fst.
        -- intros i x y [_ Hx%elem_of_map_to_list]%list_elem_of_filter
             [_ Hy%elem_of_map_to_list]%list_elem_of_filter. congruence.
        -- apply NoDup_filter, NoDup_map_to_list.
      * intros [id d] [_ Hd%elem_of_map_to_list]%list_elem_of_filter.
        by rewrite Hgu.
      * intros [= <- <-]. split; [congruence|]. intros id.
        destruct (Hframe id) as [Hid|(d & Hin & Hid)]; rewrite Hgu in *.
        -- rewrite Hid. destruct (users db !! id) as [d|]; [|done].
           by exists d.
        -- apply list_elem_of_filter in Hin as [Hu Hd%elem_of_map_to_list].
           simpl in *. rewrite Hd. eexists. split; [done|]. split; [|done].
           intros k Hk. unfold set_following. by rewrite lookup_insert_ne.
    + intros [= <- <-]. split; [done|]. intros id. rewrite Hgu.
      destruct (users db !! id) as [d|]; [|done]. by exists d.
  - intros H. eexists. split; [by apply updateUserFollowingField_no_faults|].
    simpl. intros id d Hd Hu. rewrite lookup_fmap, Hd. simpl.
    eexists. split; [done|]. unfold toggled. rewrite decide_True by done.
    unfold set_following, following_transform. by rewrite lookup_insert_eq.
  - intros H Hnone. rewrite (updateUserFollowingField_no_faults _ _ _ _ H).
    f_equal. destruct db as [us ps fs]; simpl in *. subst fs. f_equal.
    apply map_eq. intros j. rewrite lookup_fmap.
    destruct (us !! j) as [d|] eqn:Hj; [|done]. simpl. unfold toggled.
    by rewrite decide_False by by apply (Hnone j).
Qed.

Lemma updateUserFollowingField_only_following_witness :
  updateUserFollowingField "u2" "nobody" false db1 = (Resolved (), db1).
Proof.
  apply (updateUserFollowingField_only_following db1 "u2" "nobody" false);
    [reflexivity|].
  change (map_Forall (λ _ (d : fields), d !! "userId" ≠ Some (VStr "nobody"))
            (users db1)).
  compute_done.
Defined.

Lemma toggled_round_trip s userId (d : fields) :
  (d !! "userId" = Some (VStr userId) →
   ∃ S, d !! "following" = Some (VArr S) ∧ VStr s ∉ S) →
  toggled (arrayRemove (VStr s)) userId
    (toggled (arrayUnion (VStr s)) userId d) = d.
Proof.
  intros HS. unfold toggled at 2. case_decide as Hu.
  - destruct (HS Hu) as (S & Hf & Hs).
    assert (set_following (arrayUnion (VStr s)) d !! "userId"
            = Some (VStr userId)) as Hu'
      by (unfold set_following; by rewrite lookup_insert_ne).
    unfold toggled. rewrite (decide_True _ _ Hu'). unfold set_following.
    rewrite lookup_insert_eq, insert_insert_eq, Hf.
    unfold apply_transform.
    rewrite decide_False, arrayRemove_arrayUnion by done.
    by apply insert_id.
  - unfold toggled. by rewrite decide_False.
Qed.

(** C1 (as amended): with flag [false] the call puts [suggestedUserId]
    into the [following] array of the acting user's documents, at the end
    and only if the array does not hold it; with flag [true] it removes
    every occurrence.  The two calls in this order restore the service
    state when [suggestedUserId] was not in the array before. *)
Theorem updateUserFollowingField_round_trip
    (db : service) (suggestedUserId userId : string) :
  faults db = [] →
  ∃ db1 db2,
    updateUserFollowingField suggestedUserId userId false db
    = (Resolved (), db1)
    ∧ updateUserFollowingField suggestedUserId userId true db1
      = (Resolved (), db2)
    ∧ (∀ id d S,
         users db !! id = Some d →
         d !! "userId" = Some (VStr userId) →
         d !! "following" = Some (VArr S) →
         ∃ d1 d2,
           users db1 !! id = Some d1
           ∧ d1 !! "following"
             = Some (VArr (if decide (VStr suggestedUserId ∈ S) then S
                           else S ++ [VStr suggestedUserId]))
           ∧ users db2 !! id = Some d2
           ∧ d2 !! "following"
             = Some (VArr (filter (λ x, x ≠ VStr suggestedUserId) S)))
    ∧ ((∀ id d, users db !! id = Some d →
                d !! "userId" = Some (VStr userId) →
                ∃ S, d !! "following" = Some (VArr S)
                     ∧ VStr suggestedUserId ∉ S) →
       db2 = db).
Proof.
  intros H. eexists _, _.
  split; [by apply updateUserFollowingField_no_faults|].
  split; [by apply updateUserFollowingField_no_faults|]. simpl. split.
  - intros id d S Hd Hu Hf. rewrite <-map_fmap_compose, !lookup_fmap, Hd.
    simpl.
    assert (toggled (arrayUnion (VStr suggestedUserId)) userId d
            = set_following (arrayUnion (VStr suggestedUserId)) d) as ->
      by (unfold toggled; by rewrite decide_True).
    assert (set_following (arrayUnion (VStr suggestedUserId)) d !! "userId"
            = Some (VStr userId)) as Hu'
      by (unfold set_following; by rewrite lookup_insert_ne).
    unfold toggled. rewrite (decide_True _ _ Hu'). unfold set_following.
    eexists _, _. split_and!; [done| |done|].
    + by rewrite lookup_insert_eq, Hf.
    + rewrite lookup_insert_eq. rewrite lookup_insert_eq, Hf.
      unfold apply_transform. do 2 f_equal.
      case_decide as Hs; [done|]. rewrite arrayRemove_arrayUnion by done.
      symmetry. clear Hf. induction S as [|x S IH]; [done|].
      apply not_elem_of_cons in Hs as [Hx HS].
      rewrite filter_cons_True by done. f_equal. by apply IH.
  - intros HS. destruct db as [us ps fs]; simpl in *. subst fs. f_equal.
    rewrite <-map_fmap_compose. apply map_eq. intros j. rewrite lookup_fmap.
    destruct (us !! j) as [d|] eqn:Hj; [|done]. simpl. f_equal.
    apply toggled_round_trip. by apply (HS j).
Qed.

Lemma not_yet_following_array s d :
  not_yet_following s d → ∃ S, d !! "following" = Some (VArr S) ∧ VStr s ∉ S.
Proof.
  unfold not_yet_following. destruct (d !! "following") as [[]|]; try done.
  eauto.
Qed.

Lemma updateUserFollowingField_round_trip_witness :
  ∃ db_followed db_back,
    updateUserFollowingField "u3" "u1" false db1 = (Resolved (), db_followed)
    ∧ updateUserFollowingField "u3" "u1" true db_followed
      = (Resolved (), db_back)
    ∧ db_back = db1.
Proof.
  destruct (updateUserFollowingField_round_trip db1 "u3" "u1" eq_refl)
    as (da & db & Ha & Hb & _ & Hid).
  exists da, db. split; [exact Ha|]. split; [exact Hb|]. apply Hid.
  intros id d Hd Hu. apply not_yet_following_array. revert id d Hd Hu.
  change (map_Forall (λ _ (d : fields),
            d !! "userId" = Some (VStr "u1") → not_yet_following "u3" d)
            (users db1)).
  compute_done.
Defined.

(** C1, as stated, at a user who already follows the suggested user: the
    first call leaves the array as it is, the second removes the entry,
    and the array is not back at its original value. *)
Lemma updateUserFollowingField_round_trip_loses_entry :
  let followed := db1 in
  let unfollowed :=
    Service (<["d1" := user_doc "u1" "alice" []]> (users db1)) (photos db1) [] in
  users db1 !! "d1" = Some (user_doc "u1" "alice" ["u2"])
  ∧ updateUserFollowingField "u2" "u1" false db1 = (Resolved (), followed)
  ∧ updateUserFollowingField "u2" "u1" true followed
    = (Resolved (), unfollowed)
  ∧ (users db1 !!! "d1" : fields) !! "following" = Some (VArr [VStr "u2"])
  ∧ (users unfollowed !!! "d1" : fields) !! "following" = Some (VArr [])
  ∧ unfollowed ≠ db1.
Proof.
  split_and!; [vm_refl..|].
  intros H. apply (f_equal (λ db, (users db !!! "d1" : fields) !! "following")) in H.
  vm_compute in H. discriminate H.
Qed.

(** ** Error propagation *)

(** C2 at a failing write: [updateUserFollowingField] resolves although
    the update it issued was rejected, and the [following] array is as
    before; [updateUserFollowersField], whose promise is returned, rejects
    on the same failure. *)
Theorem updateUserFollowingField_swallows_write_failure :
  update Users "d1" "following" (arrayUnion (VStr "u2"))
    (Service (users db_write_fails) ∅ [true])
  = (Rejected ServiceFailure, Service (users db_write_fails) ∅ [])
  ∧ updateUserFollowingField "u2" "u1" false db_write_fails
    = (Resolved (), Service (users db_write_fails) ∅ [])
  ∧ updateUserFollowersField "d1" "u2" false
      (Service (users db_write_fails) ∅ [true])
    = (Rejected ServiceFailure, Service (users db_write_fails) ∅ []).
Proof. split_and!; vm_refl. Qed.

(** ** Reads never write *)

Lemma read_only_ret {A} (a : A) : read_only (mret a : async A).
Proof. by intros db. Qed.

Lemma read_only_throw {A} e : read_only (throw e : async A).
Proof. by intros db. Qed.

Lemma read_only_bind {A B} (m : async A) (k : A → async B) :
  read_only m → (∀ a, read_only (k a)) → read_only (m ≫= k).
Proof.
  intros Hm Hk db. unfold mbind, async_bind.
  destruct (Hm db) as [Hu Hp]. destruct (m db) as [[a|e] db1]; simpl in *.
  - destruct (Hk a db1) as [Hu' Hp']. split; congruence.
  - done.
Qed.

Lemma read_only_get q : read_only (get q).
Proof. intros db. apply get_data. Qed.

Lemma read_only_includes recv x : read_only (includes recv x).
Proof. destruct recv; apply read_only_ret || apply read_only_throw. Qed.

Lemma read_only_promise_all {A B} (f : A → async B) xs :
  (∀ x, read_only (f x)) → read_only (promise_all f xs).
Proof.
  intros Hf. induction xs as [|x xs IH]; simpl; [apply read_only_ret|].
  apply read_only_bind; [done|]. intros y.
  apply read_only_bind; [done|]. intros ys. apply read_only_ret.
Qed.

Lemma read_only_getUserDataByUserId userId :
  read_only (getUserDataByUserId userId).
Proof.
  apply read_only_bind; [apply read_only_get|].
  intros docs. apply read_only_ret.
Qed.

(** X1: the five query functions never modify a user or photo document,
    whether they resolve or reject and whatever failures the service
    has. *)
Theorem queries_never_write :
  (∀ username, read_only (doesUserExist username))
  ∧ (∀ userId, read_only (getUserDataByUserId userId))
  ∧ (∀ userId userFollowing limitQuery,
       read_only (getSuggestedProfilesByUserId userId userFollowing limitQuery))
  ∧ (∀ userId userFollowing,
       read_only (getFollowingUserPhotosByUserId userId userFollowing))
  ∧ (∀ userId limitQuery, read_only (getUserPhotosByUserId userId limitQuery)).
Proof.
  split_and!.
  - intros u. apply read_only_bind; [apply read_only_get|].
    intros docs. apply read_only_ret.
  - apply read_only_getUserDataByUserId.
  - intros u F n. apply read_only_bind; [apply read_only_get|].
    intros docs. apply read_only_ret.
  - intros u F. apply read_only_bind; [apply read_only_get|].
    intros docs. apply read_only_promise_all. intros photo.
    unfold photoWithUserData.
    apply read_only_bind; [apply read_only_includes|]. intros liked.
    apply read_only_bind; [apply read_only_includes|]. intros saved.
    apply read_only_bind; [apply read_only_getUserDataByUserId|].
    intros [o|]; [apply read_only_ret|apply read_only_throw].
  - intros u n. apply read_only_bind; [apply read_only_get|].
    intros docs. apply read_only_ret.
Qed.

(** ** A failing service *)

Lemma request_service_failure db fs :
  faults db = true :: fs →
  request db = (Rejected ServiceFailure, Service (users db) (photos db) fs).
Proof. intros H. unfold request. by rewrite H. Qed.

Lemma get_service_failure q db fs :
  faults db = true :: fs →
  get q db = (Rejected ServiceFailure, Service (users db) (photos db) fs).
Proof.
  intros H. unfold get, mbind, async_bind.
  by rewrite (request_service_failure _ _ H).
Qed.

Lemma update_service_failure c id field t db fs :
  faults db = true :: fs →
  update c id field t db
  = (Rejected ServiceFailure, Service (users db) (photos db) fs).
Proof.
  intros H. unfold update, mbind, async_bind.
  by rewrite (request_service_failure _ _ H).
Qed.

(** X2: when the service fails the first request of a call, every function
    of the layer rejects with that failure and no document is modified.
    For [updateUserFollowingField] this is the failure of its query. *)
Theorem first_request_failure_propagates (db : service) (fs : list bool) :
  faults db = true :: fs →
  let failed {A} : outcome A * service :=
    (Rejected ServiceFailure, Service (users db) (photos db) fs) in
  (∀ username, doesUserExist username db = failed)
  ∧ (∀ userObject, createFirestoreUser userObject db = failed)
  ∧ (∀ userId, getUserDataByUserId userId db = failed)
  ∧ (∀ userId userFollowing limitQuery,
       getSuggestedProfilesByUserId userId userFollowing limitQuery db = failed)
  ∧ (∀ suggestedUserId userId status,
       updateUserFollowingField suggestedUserId userId status db = failed)
  ∧ (∀ suggestedUserDocId userId status,
       updateUserFollowersField suggestedUserDocId userId status db = failed)
  ∧ (∀ userId userFollowing,
       getFollowingUserPhotosByUserId userId userFollowing db = failed)
  ∧ (∀ userId limitQuery, getUserPhotosByUserId userId limitQuery db = failed)
  ∧ (∀ postDocId userId status,
       updatePostLikesField postDocId userId status db = failed)
  ∧ (∀ userDocId userId status,
       updatePostSavedField userDocId userId status db = failed)
  ∧ (∀ userDocId postId status,
       updateUserSavedPostsField userDocId postId status db = failed)
  ∧ (∀ postDocId comment, addPostComments postDocId comment db = failed).
Proof.
  intros H failed. unfold failed.
  split_and!; intros;
    first
      [ by apply update_service_failure
      | unfold doesUserExist, getUserDataByUserId, getSuggestedProfilesByUserId,
          updateUserFollowingField, getFollowingUserPhotosByUserId,
          getUserPhotosByUserId, mbind, async_bind;
        by rewrite (get_service_failure _ _ _ H)
      | unfold createFirestoreUser, add, mbind, async_bind;
        by rewrite (request_service_failure _ _ H) ].
Qed.

Lemma first_request_failure_propagates_witness :
  getFollowingUserPhotosByUserId "u1" ["u2"] db_down
  = (Rejected ServiceFailure, db1).
Proof.
  exact (proj1 (proj2 (proj2 (proj2 (proj2 (proj2 (proj2
           (first_request_failure_propagates db_down [] eq_refl)))))))
           "u1" ["u2"]).
Defined.

(** ** Toggles addressed by document identifier *)

Lemma run_toggle_unfold op docId x status :
  run_toggle op docId x status
  = update (toggle_target op).1 docId (toggle_target op).2
      (following_transform x status).
Proof. by destruct op, status. Qed.

Lemma update_missing c id field t db :
  faults db = [] →
  docs_of c db !! id = None →
  update c id field t db = (Rejected DocumentNotFound, db).
Proof.
  intros H Hd. unfold update, mbind, async_bind, served.
  by rewrite (request_no_faults _ H), Hd.
Qed.

Lemma update_touches_only c id field t db :
  touches_only c id field db (update c id field t db).2.
Proof.
  destruct (update_data c id field t db)
    as (_ & [[Hu Hp]|(d & Hd & ->)]).
  - assert (∀ c', docs_of c' (update c id field t db).2 = docs_of c' db) as Hc
      by (by intros []).
    unfold touches_only. rewrite !Hc. split; [done|]. split; [done|].
    destruct (docs_of c db !! id) as [d|]; [|done]. by exists d.
  - unfold touches_only. rewrite Hd. destruct c; simpl in *.
    + split; [done|]. split; [by intros j Hj; rewrite lookup_insert_ne|].
      eexists. split; [apply lookup_insert_eq|].
      intros k Hk. by rewrite lookup_insert_ne.
    + split; [done|]. split; [by intros j Hj; rewrite lookup_insert_ne|].
      eexists. split; [apply lookup_insert_eq|].
      intros k Hk. by rewrite lookup_insert_ne.
Qed.

(** X3: a toggle or a comment append on an identifier that has no document
    rejects, and the rejection reaches the caller since the update promise
    is returned; no document is created or modified. *)
Theorem write_to_missing_document_rejects
    (db : service) (docId : string) :
  faults db = [] →
  (∀ op x status,
     docs_of (toggle_target op).1 db !! docId = None →
     run_toggle op docId x status db = (Rejected DocumentNotFound, db))
  ∧ (∀ comment,
       photos db !! docId = None →
       addPostComments docId comment db = (Rejected DocumentNotFound, db)).
Proof.
  intros H. split.
  - intros op x status Hd. rewrite run_toggle_unfold.
    by apply update_missing.
  - intros comment Hd. by apply (update_missing Photos).
Qed.

Lemma write_to_missing_document_rejects_witness :
  updatePostLikesField "d1" "u1" false db1 = (Rejected DocumentNotFound, db1).
Proof.
  refine (proj1 (write_to_missing_document_rejects db1 "d1" eq_refl)
            PostLikes "u1" false _).
  vm_refl.
Defined.

(** X4: whatever the service does, each toggle changes at most the one
    array field it is named after, in the one document it addresses, and
    [addPostComments] at most the [comments] of the addressed photo; every
    other field, every other document and the other collection stay as
    they are. *)
Theorem toggles_touch_only_their_field (db : service) (docId : string) :
  (∀ op x status,
     touches_only (toggle_target op).1 docId (toggle_target op).2
       db (run_toggle op docId x status db).2)
  ∧ (∀ comment,
       touches_only Photos docId "comments"
         db (addPostComments docId comment db).2).
Proof.
  split.
  - intros op x status. rewrite run_toggle_unfold. apply update_touches_only.
  - intros comment. apply update_touches_only.
Qed.

Lemma docs_of_with_docs c m db : docs_of c (with_docs c m db) = m.
Proof. by destruct c. Qed.

Lemma faults_with_docs c m db : faults (with_docs c m db) = faults db.
Proof. by destruct c. Qed.

Lemma with_docs_with_docs c m m' db :
  with_docs c m' (with_docs c m db) = with_docs c m' db.
Proof. by destruct c. Qed.

Lemma with_docs_id c db : with_docs c (docs_of c db) db = db.
Proof. by destruct c, db. Qed.

Lemma arrayRemove_idempotent v old :
  apply_transform (arrayRemove v) (Some (apply_transform (arrayRemove v) old))
  = apply_transform (arrayRemove v) old.
Proof.
  unfold apply_transform. f_equal.
  induction (match old with Some (VArr l) => l | _ => [] end) as [|y l IH];
    [done|].
  destruct (decide (y ≠ v)) as [Hy|Hy].
  - rewrite !filter_cons_True by done. by f_equal.
  - by rewrite !filter_cons_False by done.
Qed.

Lemma following_transform_idempotent x status old :
  apply_transform (following_transform x status)
    (Some (apply_transform (following_transform x status) old))
  = apply_transform (following_transform x status) old.
Proof.
  destruct status; [apply arrayRemove_idempotent|apply arrayUnion_idempotent].
Qed.

Lemma update_twice c id field t db d :
  faults db = [] →
  docs_of c db !! id = Some d →
  (∀ old, apply_transform t (Some (apply_transform t old))
          = apply_transform t old) →
  ∃ db1, update c id field t db = (Resolved (), db1)
         ∧ update c id field t db1 = (Resolved (), db1).
Proof.
  intros H Hd Ht. eexists. split; [by apply update_no_faults|].
  erewrite update_no_faults;
    [|by rewrite faults_with_docs
     |rewrite docs_of_with_docs; apply lookup_insert_eq].
  rewrite docs_of_with_docs, with_docs_with_docs, lookup_insert_eq, Ht.
  by rewrite insert_insert_eq, (insert_insert_eq d).
Qed.

Lemma update_union_remove c id field v db d l :
  faults db = [] →
  docs_of c db !! id = Some d →
  d !! field = Some (VArr l) →
  v ∉ l →
  ∃ db1, update c id field (arrayUnion v) db = (Resolved (), db1)
         ∧ update c id field (arrayRemove v) db1 = (Resolved (), db).
Proof.
  intros H Hd Hf Hv. eexists. split; [by apply update_no_faults|].
  erewrite update_no_faults;
    [|by rewrite faults_with_docs
     |rewrite docs_of_with_docs; apply lookup_insert_eq].
  rewrite docs_of_with_docs, with_docs_with_docs, lookup_insert_eq, Hf.
  rewrite !insert_insert_eq. unfold apply_transform.
  rewrite decide_False, arrayRemove_arrayUnion by done.
  rewrite (insert_id d) by done. rewrite insert_id by done.
  by rewrite with_docs_id.
Qed.

(** X5: on a document whose array does not hold the element, a toggle with
    flag [false] followed by the same toggle with flag [true] resolves
    twice and leaves the service exactly as it was (like then unlike, save
    then unsave, follow then unfollow of the followers list). *)
Theorem toggle_on_then_off_restores
    (op : toggle_op) (db : service) (docId x : string)
    (d : fields) (l : list value) :
  faults db = [] →
  docs_of (toggle_target op).1 db !! docId = Some d →
  d !! (toggle_target op).2 = Some (VArr l) →
  VStr x ∉ l →
  ∃ db1, run_toggle op docId x false db = (Resolved (), db1)
         ∧ run_toggle op docId x true db1 = (Resolved (), db).
Proof.
  intros H Hd Hf Hx. rewrite !run_toggle_unfold.
  by eapply update_union_remove.
Qed.

Lemma toggle_on_then_off_restores_witness :
  ∃ db_liked, updatePostLikesField "p4" "u1" false db1 = (Resolved (), db_liked)
              ∧ updatePostLikesField "p4" "u1" true db_liked = (Resolved (), db1).
Proof.
  refine (toggle_on_then_off_restores PostLikes db1 "p4" "u1"
            (photo_doc "u3" 20 [] []) [] eq_refl _ _ _).
  - vm_refl.
  - vm_refl.
  - apply not_elem_of_nil.
Defined.

(** X6: repeating a toggle with the same flag changes nothing further:
    liking (saving, following) twice is liking once, and so is undoing
    twice. *)
Theorem toggle_idempotent
    (op : toggle_op) (db : service) (docId x : string) (status : bool)
    (d : fields) :
  faults db = [] →
  docs_of (toggle_target op).1 db !! docId = Some d →
  ∃ db1, run_toggle op docId x status db = (Resolved (), db1)
         ∧ run_toggle op docId x status db1 = (Resolved (), db1).
Proof.
  intros H Hd. rewrite !run_toggle_unfold.
  eapply update_twice; [done..|]. apply following_transform_idempotent.
Qed.

Lemma toggle_idempotent_witness :
  ∃ db_saved, updateUserSavedPostsField "d1" "p1" false db1
              = (Resolved (), db_saved)
              ∧ updateUserSavedPostsField "d1" "p1" false db_saved
                = (Resolved (), db_saved).
Proof.
  refine (toggle_idempotent UserSavedPosts db1 "d1" "p1" false
            (user_doc "u1" "alice" ["u2"]) eq_refl _).
  vm_refl.
Defined.

Lemma apply_transform_members x status l :
  ∃ l', apply_transform (following_transform x status) (Some (VArr l)) = VArr l'
        ∧ (VStr x ∈ l' ↔ status = false)
        ∧ (∀ y, y ≠ VStr x → y ∈ l' ↔ y ∈ l)
        ∧ (NoDup l → NoDup l').
Proof.
  destruct status; unfold apply_transform; simpl; eexists; (split; [done|]).
  - split_and!.
    + rewrite list_elem_of_filter. intuition congruence.
    + intros y Hy. rewrite list_elem_of_filter. intuition congruence.
    + apply NoDup_filter.
  - case_decide as Hx.
    + split_and!; [intuition congruence|done..].
    + split_and!.
      * rewrite elem_of_app, list_elem_of_singleton. intuition congruence.
      * intros y Hy. rewrite elem_of_app, list_elem_of_singleton.
        intuition congruence.
      * intros Hl. apply NoDup_app. split_and!; [done| |apply NoDup_singleton].
        intros y Hy ->%list_elem_of_singleton. done.
Qed.

(** X7: after a toggle on a document whose field is an array, the element
    is in the array exactly when the flag was [false]; every other member
    is kept and none is added; and an array without duplicates stays
    without duplicates. *)
Theorem toggle_sets_membership
    (op : toggle_op) (db : service) (docId x : string) (status : bool)
    (d : fields) (l : list value) :
  faults db = [] →
  docs_of (toggle_target op).1 db !! docId = Some d →
  d !! (toggle_target op).2 = Some (VArr l) →
  ∃ db1 d1 l1,
    run_toggle op docId x status db = (Resolved (), db1)
    ∧ docs_of (toggle_target op).1 db1 !! docId = Some d1
    ∧ d1 !! (toggle_target op).2 = Some (VArr l1)
    ∧ (VStr x ∈ l1 ↔ status = false)
    ∧ (∀ y, y ≠ VStr x → y ∈ l1 ↔ y ∈ l)
    ∧ (NoDup l → NoDup l1).
Proof.
  intros H Hd Hf. rewrite run_toggle_unfold.
  destruct (apply_transform_members x status l) as (l1 & Hl1 & Hx & Hy & Hnd).
  eexists _, _, l1. split; [by apply update_no_faults|].
  rewrite docs_of_with_docs, lookup_insert_eq. split; [done|].
  by rewrite lookup_insert_eq, Hf, Hl1.
Qed.

Lemma toggle_sets_membership_witness :
  ∃ db1' d1 l1,
    updatePostSavedField "p2" "u1" true db1 = (Resolved (), db1')
    ∧ photos db1' !! "p2" = Some d1
    ∧ d1 !! "saved" = Some (VArr l1)
    ∧ VStr "u1" ∉ l1.
Proof.
  destruct (toggle_sets_membership PostSaved db1 "p2" "u1" true
              (photo_doc "u2" 30 [] ["u1"]) [VStr "u1"] eq_refl)
    as (db' & d1 & l1 & Hrun & Hd1 & Hl1 & Hx & _); [vm_refl..|].
  exists db', d1, l1. split_and!; [done..|]. by intros ?%Hx.
Defined.

(** ** The feed after a mutation, and when it resolves *)

Lemma feed_record_inv userId userFollowing db r db' rec :
  getFollowingUserPhotosByUserId userId userFollowing db = (Resolved r, db') →
  rec ∈ r →
  ∃ id photo liked saved oid owner db0,
    photos db !! id = Some photo
    ∧ includes (prop photo "likes") userId db0 = (Resolved liked, db0)
    ∧ includes (prop photo "saved") userId db0 = (Resolved saved, db0)
    ∧ users db !! oid = Some owner
    ∧ rec = <["userSavedPhoto" := VBool saved]>
              (<["userLikedPhoto" := VBool liked]>
                 (with_doc_id (id, photo)
                  ∪ {["user" := owner_projection (with_doc_id (oid, owner))]})).
Proof.
  intros Hrun Hrec.
  apply getFollowingUserPhotosByUserId_resolved in Hrun.
  apply list_elem_of_lookup in Hrec as [i Hi].
  destruct (Forall2_lookup_r _ _ _ _ _ Hrun Hi)
    as ([id photo] & Hdoc%list_elem_of_lookup_2 & db0 & db1 & Hu & Hp & Hone).
  apply list_elem_of_filter in Hdoc as [_ Hdoc%elem_of_map_to_list].
  apply photoWithUserData_resolved in Hone
    as (liked & saved & oid & owner & Hl & Hs & Ho & _ & -> & _).
  rewrite prop_with_doc_id in Hl, Hs by done. rewrite Hu in Ho.
  by exists id, photo, liked, saved, oid, owner, db0.
Qed.

Lemma feed_record_docId id photo liked saved user :
  (<["userSavedPhoto" := VBool saved]>
     (<["userLikedPhoto" := VBool liked]>
        (with_doc_id (id, photo) ∪ {["user" := user]})) : fields) !! "docId"
  = Some (VStr id).
Proof.
  rewrite !lookup_insert_ne by done.
  apply lookup_union_Some_l. unfold with_doc_id. apply lookup_insert_eq.
Qed.

(** X8: after [updatePostLikesField] or [updatePostSavedField] resolved on
    a photo whose field is an array, every feed of the same user that
    contains this photo shows it with [userLikedPhoto] (respectively
    [userSavedPhoto]) true after flag [false] and false after flag
    [true]. *)
Theorem feed_reflects_like_and_save
    (db : service) (postDocId userId : string) (status : bool)
    (userFollowing : list string) (photo : fields) :
  faults db = [] →
  photos db !! postDocId = Some photo →
  (is_array (photo !! "likes") →
   ∃ db1, updatePostLikesField postDocId userId status db = (Resolved (), db1)
     ∧ ∀ r db2 rec,
         getFollowingUserPhotosByUserId userId userFollowing db1
         = (Resolved r, db2) →
         rec ∈ r → rec !! "docId" = Some (VStr postDocId) →
         rec !! "userLikedPhoto" = Some (VBool (negb status)))
  ∧ (is_array (photo !! "saved") →
     ∃ db1, updatePostSavedField postDocId userId status db = (Resolved (), db1)
       ∧ ∀ r db2 rec,
           getFollowingUserPhotosByUserId userId userFollowing db1
           = (Resolved r, db2) →
           rec ∈ r → rec !! "docId" = Some (VStr postDocId) →
           rec !! "userSavedPhoto" = Some (VBool (negb status))).
Proof.
  intros H Hphoto.
  assert (∀ l1 : list value, (VStr userId ∈ l1 ↔ status = false) →
            bool_decide (VStr userId ∈ l1) = negb status) as Hneg.
  { intros l1 Hx. destruct status; simpl.
    - apply bool_decide_eq_false. by intros ?%Hx.
    - apply bool_decide_eq_true. by apply Hx. }
  split; intros [l Hl].
  - destruct (apply_transform_members userId status l) as (l1 & Hl1 & Hx & _).
    assert (updatePostLikesField postDocId userId status
            = update Photos postDocId "likes"
                (following_transform userId status)) as ->
      by apply (run_toggle_unfold PostLikes).
    eexists. split; [by apply (update_no_faults Photos)|].
    simpl. intros r db2 rec Hrun Hrec Hid.
    destruct (feed_record_inv _ _ _ _ _ _ Hrun Hrec)
      as (id & p & liked & saved & oid & owner & db0 & Hp & Hliked & _ & _ & ->).
    rewrite feed_record_docId in Hid. injection Hid as ->.
    simpl in Hp. rewrite lookup_insert_eq in Hp. injection Hp as <-.
    apply includes_resolved in Hliked as [_ Hliked].
    unfold prop in Hliked. rewrite lookup_insert_eq, Hl, Hl1 in Hliked.
    simpl in Hliked. rewrite lookup_insert_ne, lookup_insert_eq by done.
    by rewrite Hliked, Hneg.
  - destruct (apply_transform_members userId status l) as (l1 & Hl1 & Hx & _).
    assert (updatePostSavedField postDocId userId status
            = update Photos postDocId "saved"
                (following_transform userId status)) as ->
      by apply (run_toggle_unfold PostSaved).
    eexists. split; [by apply (update_no_faults Photos)|].
    simpl. intros r db2 rec Hrun Hrec Hid.
    destruct (feed_record_inv _ _ _ _ _ _ Hrun Hrec)
      as (id & p & liked & saved & oid & owner & db0 & Hp & _ & Hsaved & _ & ->).
    rewrite feed_record_docId in Hid. injection Hid as ->.
    simpl in Hp. rewrite lookup_insert_eq in Hp. injection Hp as <-.
    apply includes_resolved in Hsaved as [_ Hsaved].
    unfold prop in Hsaved. rewrite lookup_insert_eq, Hl, Hl1 in Hsaved.
    simpl in Hsaved. rewrite lookup_insert_eq.
    by rewrite Hsaved, Hneg.
Qed.

Lemma feed_reflects_like_and_save_witness :
  ∃ db_unliked,
    updatePostLikesField "p1" "u1" true db1 = (Resolved (), db_unliked)
    ∧ ∀ r db2 rec,
        getFollowingUserPhotosByUserId "u1" ["u2"] db_unliked
        = (Resolved r, db2) →
        rec ∈ r → rec !! "docId" = Some (VStr "p1") →
        rec !! "userLikedPhoto" = Some (VBool false).
Proof.
  refine (proj1 (feed_reflects_like_and_save db1 "p1" "u1" true ["u2"]
                   (photo_doc "u2" 10 ["u1"] []) eq_refl _) _).
  - vm_refl.
  - compute_done.
Defined.

Lemma promise_all_resolves {A B} (f : A → async B) xs db :
  (∀ x, x ∈ xs → ∃ y, f x db = (Resolved y, db)) →
  ∃ ys, promise_all f xs db = (Resolved ys, db)
        ∧ Forall2 (λ x y, f x db = (Resolved y, db)) xs ys.
Proof.
  induction xs as [|x xs IH]; intros Hf; simpl.
  - exists []. by split.
  - destruct (Hf x) as [y Hy]; [left|].
    destruct IH as (ys & Hys & Hall); [intros x' Hx'; apply Hf; by right|].
    exists (y :: ys). unfold mbind, async_bind. fold (@promise_all A B).
    rewrite Hy, Hys. split; [done|by constructor].
Qed.

Lemma photoWithUserData_resolves userId id photo f db :
  faults db = [] →
  photo !! "userId" = Some (VStr f) →
  is_array (photo !! "likes") →
  is_array (photo !! "saved") →
  has_owner db photo →
  ∃ rec, photoWithUserData userId (with_doc_id (id, photo)) db
         = (Resolved rec, db)
         ∧ rec !! "docId" = Some (VStr id)
         ∧ ∀ k, k ∉ derived_fields → rec !! k = photo !! k.
Proof.
  intros H Hid [likes Hl] [saved Hs] (oid & owner & Ho & Hoid).
  unfold photoWithUserData, mbind, async_bind.
  rewrite !prop_with_doc_id by done. unfold prop at 1 2 3. simpl.
  rewrite Hl, Hs, Hid. simpl.
  rewrite (getUserDataByUserId_run _ _ H).
  destruct (filter _ _) as [|[oid' owner'] rest] eqn:E.
  { exfalso. eapply (filter_nil_not_elem_of _ _ (oid, owner) E);
      [simpl; congruence|by apply elem_of_map_to_list]. }
  simpl. eexists. split; [done|]. split; [apply feed_record_docId|].
  intros k Hk. unfold derived_fields in Hk.
  rewrite !not_elem_of_cons in Hk. destruct Hk as (?&?&?&?&_).
  rewrite !lookup_insert_ne by done.
  rewrite lookup_union_l by (by rewrite lookup_singleton_ne).
  unfold with_doc_id. simpl. by rewrite lookup_insert_ne.
Qed.

(** X9: for a list of one to ten followed users, which is what the
    membership query accepts, when the service does not fail and every
    fetched photo has array [likes] and [saved] fields and an owner with a
    user document, the feed resolves with exactly one record per photo of
    a followed user, in the order of the fetch; each record carries the
    photo's document identifier under [docId] and all the photo's own
    fields other than the derived ones. *)
Theorem feed_resolves_with_one_record_per_photo
    (db : service) (userId : string) (userFollowing : list string) :
  userFollowing ≠ [] →
  (length userFollowing ≤ 10)%nat →
  faults db = [] →
  (∀ id photo,
     photos db !! id = Some photo →
     satisfies (FieldIn "userId" (VStr <$> userFollowing)) (id, photo) →
     is_array (photo !! "likes") ∧ is_array (photo !! "saved")
     ∧ has_owner db photo) →
  ∃ r,
    getFollowingUserPhotosByUserId userId userFollowing db = (Resolved r, db)
    ∧ Forall2
        (λ (doc : snapshot) (rec : fields),
           rec !! "docId" = Some (VStr doc.1)
           ∧ ∀ k, k ∉ derived_fields → rec !! k = doc.2 !! k)
        (filter (λ doc : snapshot,
                   satisfies (FieldIn "userId" (VStr <$> userFollowing)) doc)
           (map_to_list (photos db)))
        r.
Proof.
  intros _ _ H Hready.
  unfold getFollowingUserPhotosByUserId, mbind, async_bind.
  rewrite (get_no_faults _ _ H), select_where_in. simpl.
  set (docs := filter _ (map_to_list (photos db))).
  assert (∀ doc, doc ∈ docs →
            ∃ rec, photoWithUserData userId (with_doc_id doc) db
                   = (Resolved rec, db)
                   ∧ rec !! "docId" = Some (VStr doc.1)
                   ∧ ∀ k, k ∉ derived_fields → rec !! k = doc.2 !! k) as Hone.
  { intros [id photo] [Hsat Hin%elem_of_map_to_list]%list_elem_of_filter.
    destruct (Hready id photo Hin Hsat) as (Hl & Hs & Ho).
    destruct Hsat as (v & (f & -> & _)%list_elem_of_fmap & Hv).
    by eapply photoWithUserData_resolves. }
  destruct (promise_all_resolves (photoWithUserData userId)
              (with_doc_id <$> docs) db) as (r & Hr & Hall).
  { intros photo (doc & -> & Hdoc)%list_elem_of_fmap.
    destruct (Hone doc Hdoc) as (rec & Hrec & _). eauto. }
  exists r. split; [done|]. apply Forall2_fmap_l in Hall.
  apply Forall2_same_length_lookup. split; [by eapply Forall2_length|].
  intros i doc rec Hdoc Hrec.
  pose proof (Forall2_lookup_lr _ _ _ _ _ _ Hall Hdoc Hrec) as Hrun.
  simpl in Hrun.
  destruct (Hone doc (list_elem_of_lookup_2 _ _ _ Hdoc)) as (rec' & Hrun' & Hshape).
  rewrite Hrun' in Hrun. by injection Hrun as <-.
Qed.

Lemma feed_resolves_with_one_record_per_photo_witness :
  ∃ r, getFollowingUserPhotosByUserId "u1" ["u2"; "u3"] db1 = (Resolved r, db1)
       ∧ length r = 4%nat.
Proof.
  destruct (feed_resolves_with_one_record_per_photo db1 "u1" ["u2"; "u3"])
    as (r & Hr & Hall); [done|simpl; lia|reflexivity| |].
  - change (map_Forall (λ id (photo : fields),
              satisfies (FieldIn "userId" (VStr <$> ["u2"; "u3"])) (id, photo) →
              is_array (photo !! "likes") ∧ is_array (photo !! "saved")
              ∧ has_owner db1 photo) (photos db1)).
    compute_done.
  - exists r. split; [done|]. rewrite <-(Forall2_length _ _ _ Hall).
    vm_refl.
Defined.

(** ** Creating a user *)

Lemma filter_snapshots_insert_fresh (P : snapshot → Prop)
    `{!∀ doc, Decision (P doc)} (m : collection) id d :
  m !! id = None →
  filter P (map_to_list (<[id := d]> m))
  ≡ₚ filter P ((id, d) :: map_to_list m).
Proof. intros Hid. by rewrite (map_to_list_insert m id d Hid). Qed.

(** X10: creating a user and then looking the user up by [userId] gives
    back the inserted object, extended with the identifier the service
    chose, provided no user document had that [userId] before. *)
Theorem createFirestoreUser_then_lookup
    (db : service) (userObject : fields) (userId : string) :
  faults db = [] →
  userObject !! "userId" = Some (VStr userId) →
  (∀ id d, users db !! id = Some d → d !! "userId" ≠ Some (VStr userId)) →
  ∃ id db',
    createFirestoreUser userObject db = (Resolved id, db')
    ∧ users db !! id = None
    ∧ getUserDataByUserId (VStr userId) db'
      = (Resolved (Some (<["docId" := VStr id]> userObject)), db').
Proof.
  intros H Hobj Hnone.
  destruct (createFirestoreUser_run userObject db H) as (id & Hfresh & Hrun).
  eexists id, _. split; [exact Hrun|]. split; [done|].
  rewrite getUserDataByUserId_run by done. simpl.
  pose proof (filter_snapshots_insert_fresh
                (λ d : snapshot, d.2 !! "userId" = Some (VStr userId))
                (users db) id userObject Hfresh) as Hperm.
  rewrite filter_cons_True in Hperm by done.
  rewrite (filter_none _ (map_to_list (users db))) in Hperm.
  - apply Permutation_singleton_r in Hperm. by rewrite Hperm.
  - intros [j d] Hin%elem_of_map_to_list. by apply (Hnone j).
Qed.

Lemma createFirestoreUser_then_lookup_witness :
  ∃ id db',
    createFirestoreUser (user_doc "u9" "zoe" []) db1 = (Resolved id, db')
    ∧ users db1 !! id = None
    ∧ getUserDataByUserId (VStr "u9") db'
      = (Resolved (Some (<["docId" := VStr id]> (user_doc "u9" "zoe" []))), db').
Proof.
  apply (createFirestoreUser_then_lookup db1 (user_doc "u9" "zoe" []) "u9");
    [reflexivity|vm_refl|].
  change (map_Forall (λ _ (d : fields), d !! "userId" ≠ Some (VStr "u9"))
            (users db1)).
  compute_done.
Defined.

(** X11: [createFirestoreUser] adds exactly one document under an
    identifier that was not in use: every existing user document and all
    photos are unchanged, and [doesUserExist] answers as before for every
    username other than the inserted one.  It performs no uniqueness
    check: it resolves whatever the collection already holds. *)
Theorem createFirestoreUser_adds_one_document
    (db : service) (userObject : fields) :
  faults db = [] →
  ∃ id db',
    createFirestoreUser userObject db = (Resolved id, db')
    ∧ users db !! id = None
    ∧ users db' !! id = Some userObject
    ∧ (∀ j, j ≠ id → users db' !! j = users db !! j)
    ∧ photos db' = photos db
    ∧ size (users db') = S (size (users db))
    ∧ ∀ username,
        userObject !! "username" ≠ Some (VStr username) →
        ∃ n, doesUserExist username db = (Resolved n, db)
             ∧ doesUserExist username db' = (Resolved n, db').
Proof.
  intros H.
  destruct (createFirestoreUser_run userObject db H) as (id & Hfresh & Hrun).
  eexists id, _. split; [exact Hrun|]. simpl. split_and!; [done|..|done| |].
  - apply lookup_insert_eq.
  - intros j Hj. by rewrite lookup_insert_ne.
  - by apply map_size_insert_None.
  - intros username Hne. eexists. split; [by apply doesUserExist_run|].
    rewrite doesUserExist_run by done. simpl. do 2 f_equal.
    rewrite (Permutation_length
               (filter_snapshots_insert_fresh _ (users db) id userObject Hfresh)).
    by rewrite filter_cons_False.
Qed.

Lemma createFirestoreUser_adds_one_document_witness :
  ∃ id db',
    createFirestoreUser (user_doc "u1" "alice" []) db1 = (Resolved id, db')
    ∧ users db1 !! id = None
    ∧ size (users db') = 4%nat.
Proof.
  destruct (createFirestoreUser_adds_one_document db1
              (user_doc "u1" "alice" []) eq_refl)
    as (id & db' & Hrun & Hfresh & _ & _ & _ & Hsize & _).
  exists id, db'. split_and!; [done..|]. rewrite Hsize. vm_refl.
Defined.

(** ** Limits that do not cut *)

(** X12: with a limit of at least the number of the user's photos,
    [getUserPhotosByUserId] returns every photo document of that user
    exactly once, each extended with its document identifier; for a user
    without photos it resolves with the empty list. *)
Theorem getUserPhotosByUserId_complete
    (db : service) (userId : string) (limitQuery : nat) :
  faults db = [] →
  let own := filter (λ d : snapshot, d.2 !! "userId" = Some (VStr userId))
               (map_to_list (photos db)) in
  (length own ≤ limitQuery)%nat →
  ∃ r, getUserPhotosByUserId userId limitQuery db = (Resolved r, db)
       ∧ r ≡ₚ (λ doc : snapshot, <["docId" := VStr doc.1]> doc.2) <$> own
       ∧ (∀ id d, photos db !! id = Some d →
                  d !! "userId" = Some (VStr userId) →
                  <["docId" := VStr id]> d ∈ r)
       ∧ (own = [] → r = []).
Proof.
  intros H own Hlen.
  exists (sort by_newest (with_doc_id <$> own)). split.
  { unfold getUserPhotosByUserId, mbind, async_bind.
    rewrite (get_no_faults _ _ H), select_limit_where_eq. fold own.
    by rewrite take_ge by done. }
  pose proof (sort_Permutation by_newest (with_doc_id <$> own)) as Hperm.
  split_and!; [done| |].
  - intros id d Hd Hu. rewrite Hperm. apply list_elem_of_fmap.
    exists (id, d). split; [done|]. apply list_elem_of_filter.
    split; [done|by apply elem_of_map_to_list].
  - by intros ->.
Qed.

Lemma getUserPhotosByUserId_complete_witness :
  ∃ r, getUserPhotosByUserId "u2" 3 db1 = (Resolved r, db1)
       ∧ <["docId" := VStr "p1"]> (photo_doc "u2" 10 ["u1"] []) ∈ r.
Proof.
  destruct (getUserPhotosByUserId_complete db1 "u2" 3 eq_refl)
    as (r & Hr & _ & Hall & _).
  - compute_done.
  - exists r. split; [done|]. apply Hall; vm_refl.
Defined.

(** X13: every suggested profile is a stored user document extended with
    its identifier, and with a limit of at least the number of user
    documents every user other than the requesting one and the followed
    ones is suggested. *)
Theorem getSuggestedProfilesByUserId_complete
    (db : service) (userId : string) (userFollowing : list string)
    (limitQuery : nat) :
  faults db = [] →
  ∃ r,
    getSuggestedProfilesByUserId userId userFollowing limitQuery db
    = (Resolved r, db)
    ∧ (∀ rec, rec ∈ r →
         ∃ id d, users db !! id = Some d ∧ rec = <["docId" := VStr id]> d)
    ∧ ((size (users db) ≤ limitQuery)%nat →
       ∀ id d, users db !! id = Some d →
               eligible userId userFollowing d →
               <["docId" := VStr id]> d ∈ r).
Proof.
  intros H. eexists. split.
  { unfold getSuggestedProfilesByUserId, mbind, async_bind.
    by rewrite (get_no_faults _ _ H), select_limit. }
  split.
  - intros rec [_ Hrec]%list_elem_of_filter.
    apply list_elem_of_fmap in Hrec as ([id d] & -> & Hd).
    apply elem_of_take in Hd as (i & Hd%list_elem_of_lookup_2 & _).
    apply elem_of_map_to_list in Hd. by exists id, d.
  - intros Hsize id d Hd [Hself Hfollowed].
    rewrite take_ge by (by rewrite length_map_to_list).
    apply list_elem_of_filter. split.
    + change (<["docId" := VStr id]> d) with (with_doc_id (id, d)).
      rewrite !prop_with_doc_id by done. simpl. split; [done|].
      rewrite list_elem_of_fmap. intros (f & Hf & Hin).
      rewrite Forall_forall in Hfollowed. by apply (Hfollowed f).
    + apply list_elem_of_fmap. exists (id, d). split; [done|].
      by apply elem_of_map_to_list.
Qed.

Lemma getSuggestedProfilesByUserId_complete_witness :
  ∃ r, getSuggestedProfilesByUserId "u1" ["u2"] 10 db1 = (Resolved r, db1)
       ∧ <["docId" := VStr "d3"]> (user_doc "u3" "carol" []) ∈ r.
Proof.
  destruct (getSuggestedProfilesByUserId_complete db1 "u1" ["u2"] 10 eq_refl)
    as (r & Hr & _ & Hall).
  exists r. split; [done|]. apply Hall.
  - compute_done.
  - vm_refl.
  - compute_done.
Defined.

(** ** Document identifiers from reads to writes *)

Lemma stored_document_writable c db id d :
  faults db = [] →
  docs_of c db !! id = Some d →
  writable c db (<["docId" := VStr id]> d).
Proof.
  intros H Hd. exists id. split; [apply lookup_insert_eq|]. split.
  - intros op x status <-. rewrite run_toggle_unfold. eexists.
    by apply update_no_faults.
  - intros -> comment. eexists. by apply (update_no_faults Photos).
Qed.

(** X14: the [docId] of every record a read returns is the identifier of a
    stored document of the collection read, so the toggles of that
    collection, and for photos the comment append, find their document and
    resolve when called with it. *)
Theorem returned_docId_is_writable (db : service) :
  faults db = [] →
  (∀ userId r,
     getUserDataByUserId userId db = (Resolved (Some r), db) →
     writable Users db r)
  ∧ (∀ userId userFollowing limitQuery r,
       getSuggestedProfilesByUserId userId userFollowing limitQuery db
       = (Resolved r, db) →
       Forall (writable Users db) r)
  ∧ (∀ userId limitQuery r,
       getUserPhotosByUserId userId limitQuery db = (Resolved r, db) →
       Forall (writable Photos db) r)
  ∧ (∀ userId userFollowing r,
       getFollowingUserPhotosByUserId userId userFollowing db
       = (Resolved r, db) →
       Forall (writable Photos db) r).
Proof.
  intros H. split_and!.
  - intros u r Hrun. apply getUserDataByUserId_resolved in Hrun as (Hr & _).
    destruct (filter _ _) as [|[id d] l] eqn:E; [done|].
    injection Hr as ->.
    assert ((id, d) ∈ filter (λ d : snapshot, d.2 !! "userId" = Some u)
              (map_to_list (users db))) as Hin by (rewrite E; left).
    apply list_elem_of_filter in Hin as [_ Hin%elem_of_map_to_list].
    by apply (stored_document_writable Users).
  - intros u F n r Hrun.
    apply getSuggestedProfilesByUserId_resolved in Hrun as ->.
    apply Forall_forall. intros rec [_ Hrec]%list_elem_of_filter.
    apply list_elem_of_fmap in Hrec as ([id d] & -> & Hd).
    apply elem_of_take in Hd as (i & Hd%list_elem_of_lookup_2 & _).
    apply elem_of_map_to_list in Hd.
    by apply (stored_document_writable Users).
  - intros u n r Hrun. apply getUserPhotosByUserId_resolved in Hrun as ->.
    apply Forall_forall. intros rec Hrec.
    rewrite sort_Permutation in Hrec.
    apply list_elem_of_fmap in Hrec as ([id d] & -> & Hd).
    apply elem_of_take in Hd as (i & Hd%list_elem_of_lookup_2 & _).
    apply list_elem_of_filter in Hd as [_ Hd%elem_of_map_to_list].
    by apply (stored_document_writable Photos).
  - intros u F r Hrun. apply Forall_forall. intros rec Hrec.
    destruct (feed_record_inv _ _ _ _ _ _ Hrun Hrec)
      as (id & p & liked & saved & oid & owner & db0 & Hp & _ & _ & _ & ->).
    destruct (stored_document_writable Photos db id p H Hp)
      as (id' & Hid & Hw).
    rewrite lookup_insert_eq in Hid. injection Hid as <-.
    exists id. split; [apply feed_record_docId|done].
Qed.

Lemma returned_docId_is_writable_witness :
  ∃ r, getUserDataByUserId (VStr "u2") db1 = (Resolved (Some r), db1)
       ∧ writable Users db1 r.
Proof.
  exists (with_doc_id ("d2", user_doc "u2" "bob" [])).
  assert (getUserDataByUserId (VStr "u2") db1
          = (Resolved (Some (with_doc_id ("d2", user_doc "u2" "bob" []))), db1))
    as Hrun by vm_refl.
  split; [exact Hrun|].
  exact (proj1 (returned_docId_is_writable db1 eq_refl) (VStr "u2") _ Hrun).
Defined.

(** ** Following *)

Lemma apply_transform_member x status old :
  ∃ l', apply_transform (following_transform x status) old = VArr l'
        ∧ (VStr x ∈ l' ↔ status = false).
Proof.
  destruct (apply_transform_members x status
              (match old with Some (VArr l) => l | _ => [] end))
    as (l' & Hl' & Hx & _).
  exists l'. split; [|done]. rewrite <-Hl'.
  unfold apply_transform. by destruct status.
Qed.

(** X15: after [updateUserFollowingField] every lookup of the acting user
    by [userId] returns a record whose [following] array holds
    [suggestedUserId] exactly when the call was a follow (flag [false]). *)
Theorem lookup_reflects_follow
    (db : service) (suggestedUserId userId : string) (status : bool) :
  faults db = [] →
  ∃ db1,
    updateUserFollowingField suggestedUserId userId status db
    = (Resolved (), db1)
    ∧ ∀ r, getUserDataByUserId (VStr userId) db1 = (Resolved (Some r), db1) →
           ∃ l, r !! "following" = Some (VArr l)
                ∧ (VStr suggestedUserId ∈ l ↔ status = false).
Proof.
  intros H. eexists.
  split; [by apply updateUserFollowingField_no_faults|].
  intros r Hrun. apply getUserDataByUserId_resolved in Hrun as (Hr & _).
  simpl in Hr. destruct (filter _ _) as [|[id d1] rest] eqn:E; [done|].
  injection Hr as ->.
  assert ((id, d1) ∈ filter
            (λ d : snapshot, d.2 !! "userId" = Some (VStr userId))
            (map_to_list (toggled (following_transform suggestedUserId status)
                            userId <$> users db))) as Hin
    by (rewrite E; left).
  apply list_elem_of_filter in Hin as [Hu Hin%elem_of_map_to_list].
  simpl in Hu. rewrite lookup_fmap in Hin.
  destruct (users db !! id) as [d|]; [|done]. injection Hin as <-.
  unfold toggled in *. case_decide as Hd; [|done].
  destruct (apply_transform_member suggestedUserId status (d !! "following"))
    as (l & Hl & Hx).
  exists l. split; [|done]. unfold with_doc_id, set_following. simpl.
  by rewrite lookup_insert_ne, lookup_insert_eq, Hl.
Qed.

Lemma lookup_reflects_follow_witness :
  ∃ db_followed,
    updateUserFollowingField "u3" "u1" false db1 = (Resolved (), db_followed)
    ∧ ∀ r, getUserDataByUserId (VStr "u1") db_followed
           = (Resolved (Some r), db_followed) →
           ∃ l, r !! "following" = Some (VArr l) ∧ VStr "u3" ∈ l.
Proof.
  destruct (lookup_reflects_follow db1 "u3" "u1" false eq_refl)
    as (db' & Hrun & Hlook).
  exists db'. split; [done|]. intros r Hr.
  destruct (Hlook r Hr) as (l & Hl & Hx). exists l. split; [done|].
  by apply Hx.
Defined.

(** X16: following (or unfollowing) twice in a row is the same as doing it
    once: the second call resolves and leaves the service as the first
    left it. *)
Theorem updateUserFollowingField_idempotent
    (db : service) (suggestedUserId userId : string) (status : bool) :
  faults db = [] →
  ∃ db1,
    updateUserFollowingField suggestedUserId userId status db
    = (Resolved (), db1)
    ∧ updateUserFollowingField suggestedUserId userId status db1
      = (Resolved (), db1).
Proof.
  intros H. eexists.
  split; [by apply updateUserFollowingField_no_faults|].
  rewrite updateUserFollowingField_no_faults by done. simpl. do 2 f_equal.
  rewrite <-map_fmap_compose. apply map_fmap_ext. intros id d _. simpl.
  unfold toggled at 2. case_decide as Hu.
  - assert (set_following (following_transform suggestedUserId status) d
            !! "userId" = Some (VStr userId)) as Hu'
      by (unfold set_following; by rewrite lookup_insert_ne).
    unfold toggled. rewrite (decide_True _ _ Hu'), (decide_True _ _ Hu).
    unfold set_following.
    by rewrite lookup_insert_eq, insert_insert_eq,
      following_transform_idempotent.
  - unfold toggled. by rewrite decide_False.
Qed.

Lemma updateUserFollowingField_idempotent_witness :
  ∃ db_followed,
    updateUserFollowingField "u3" "u1" false db1 = (Resolved (), db_followed)
    ∧ updateUserFollowingField "u3" "u1" false db_followed
      = (Resolved (), db_followed).
Proof.
  exact (updateUserFollowingField_idempotent db1 "u3" "u1" false eq_refl).
Defined.

(** X17: the two writes of a follow, the acting user's [following] and
    the target's [followers], can be issued in either order: both orders
    resolve and end in the same service state. *)
Theorem following_and_followers_commute
    (db : service) (suggestedUserId userId : string) (status : bool)
    (suggestedUserDocId follower : string) (status' : bool) (d : fields) :
  faults db = [] →
  users db !! suggestedUserDocId = Some d →
  ∃ db_following db_followers db_both,
    updateUserFollowingField suggestedUserId userId status db
    = (Resolved (), db_following)
    ∧ updateUserFollowersField suggestedUserDocId follower status' db_following
      = (Resolved (), db_both)
    ∧ updateUserFollowersField suggestedUserDocId follower status' db
      = (Resolved (), db_followers)
    ∧ updateUserFollowingField suggestedUserId userId status db_followers
      = (Resolved (), db_both).
Proof.
  intros H Hd.
  set (t := following_transform suggestedUserId status).
  set (t' := following_transform follower status').
  assert (∀ db0, updateUserFollowersField suggestedUserDocId follower status' db0
                 = update Users suggestedUserDocId "followers" t' db0) as Hfollowers
    by (intros db0; by rewrite (run_toggle_unfold UserFollowers)).
  eexists _, _, _. rewrite !Hfollowers.
  split; [by apply updateUserFollowingField_no_faults|]. fold t.
  split.
  { apply (update_no_faults Users); [done|]. simpl.
    by rewrite lookup_fmap, Hd. }
  split; [by apply (update_no_faults Users)|].
  rewrite updateUserFollowingField_no_faults by (simpl; done).
  fold t. simpl. do 2 f_equal. rewrite fmap_insert. f_equal.
  unfold toggled.
  rewrite (decide_ext (_ !! "userId" = _) (d !! "userId" = Some (VStr userId)))
    by (by rewrite lookup_insert_ne).
  case_decide; [|done]. unfold set_following.
  rewrite !(lookup_insert_ne _ "following" "followers") by done.
  rewrite !(lookup_insert_ne _ "followers" "following") by done.
  by apply insert_insert_ne.
Qed.

Lemma following_and_followers_commute_witness :
  ∃ db_following db_followers db_both,
    updateUserFollowingField "u3" "u1" false db1 = (Resolved (), db_following)
    ∧ updateUserFollowersField "d3" "u1" false db_following
      = (Resolved (), db_both)
    ∧ updateUserFollowersField "d3" "u1" false db1 = (Resolved (), db_followers)
    ∧ updateUserFollowingField "u3" "u1" false db_followers
      = (Resolved (), db_both).
Proof.
  refine (following_and_followers_commute db1 "u3" "u1" false "d3" "u1" false
            (user_doc "u3" "carol" []) eq_refl _).
  vm_refl.
Defined.

(** ** Comments keep their order *)

(** X18: [addPostComments] on a photo with a [comments] array never
    removes or reorders a comment and adds at most one: the new array is
    the old one, or the old one with the comment put at the end.  For a
    comment that is a string, as the function documents its argument, the
    new array holds the comment, and it is appended exactly when the old
    array did not hold it. *)
Theorem addPostComments_keeps_earlier_comments
    (db : service) (postDocId : string) (photo : fields)
    (comment : value) (l : list value) :
  faults db = [] →
  photos db !! postDocId = Some photo →
  photo !! "comments" = Some (VArr l) →
  ∃ db1 photo1 l1,
    addPostComments postDocId comment db = (Resolved (), db1)
    ∧ photos db1 !! postDocId = Some photo1
    ∧ photo1 !! "comments" = Some (VArr l1)
    ∧ l `prefix_of` l1
    ∧ (l1 = l ∨ l1 = l ++ [comment])
    ∧ (∀ text, comment = VStr text →
         comment ∈ l1
         ∧ (comment ∈ l → l1 = l)
         ∧ (comment ∉ l → l1 = l ++ [comment])).
Proof.
  intros H Hphoto Hl. unfold addPostComments.
  rewrite (update_no_faults Photos _ _ _ _ photo H Hphoto). simpl.
  set (l1 := if decide (comment ∈ l) then l else l ++ [comment]).
  assert (apply_transform (arrayUnion comment) (photo !! "comments") = VArr l1)
    as -> by (by rewrite Hl).
  eexists _, _, l1. split; [done|]. simpl.
  split; [apply lookup_insert_eq|]. split; [apply lookup_insert_eq|].
  unfold l1. case_decide as Hc.
  - split_and!; [done|by left|]. intros text _. split_and!; [done..|].
    by intros ?.
  - split_and!; [by apply prefix_app_r|by right|]. intros text _.
    split_and!; [|done..]. apply elem_of_app. right. by left.
Qed.

Lemma addPostComments_keeps_earlier_comments_witness :
  ∃ db' photo1 l1,
    addPostComments "p1" (VStr "first") db1 = (Resolved (), db')
    ∧ photos db' !! "p1" = Some photo1
    ∧ photo1 !! "comments" = Some (VArr l1)
    ∧ VStr "first" ∈ l1.
Proof.
  destruct (addPostComments_keeps_earlier_comments db1 "p1"
              (photo_doc "u2" 10 ["u1"] []) (VStr "first") [] eq_refl)
    as (db' & p1 & l1 & Hrun & Hp & Hl & _ & _ & Hstr); [vm_refl..|].
  exists db', p1, l1. split_and!; [done..|]. by apply (Hstr "first").
Defined.

(** ** How many photos come back *)

(** X19: [getUserPhotosByUserId] returns exactly as many records as the
    user has photo documents, cut at the limit. *)
Theorem getUserPhotosByUserId_count
    (db : service) (userId : string) (limitQuery : nat)
    (r : list fields) (db' : service) :
  getUserPhotosByUserId userId limitQuery db = (Resolved r, db') →
  length r
  = (limitQuery `min`
     length (filter (λ d : snapshot, d.2 !! "userId" = Some (VStr userId))
               (map_to_list (photos db))))%nat.
Proof.
  intros ->%getUserPhotosByUserId_resolved.
  by rewrite (Permutation_length (sort_Permutation _ _)), length_fmap,
    length_take.
Qed.

Lemma getUserPhotosByUserId_count_witness :
  ∃ r, getUserPhotosByUserId "u2" 2 db1 = (Resolved r, db1)
       ∧ length r = 2%nat.
Proof.
  assert (∃ r, getUserPhotosByUserId "u2" 2 db1 = (Resolved r, db1))
    as [r Hr].
  { eexists. unfold getUserPhotosByUserId, mbind, async_bind.
    by rewrite (get_no_faults _ db1 eq_refl). }
  exists r. split; [done|].
  rewrite (getUserPhotosByUserId_count db1 "u2" 2 r db1 Hr). vm_refl.
Defined.
